(** * The restart supervisor of the vGPU device plugin (cmd/vgpu/main.go)

    [start()] is a control loop written with two labels, [restart:] and
    [events:], a [select] over four channels and a handful of calls into
    external collaborators (NVML, the filesystem and signal watchers, the
    MIG strategy, the plugin endpoints).  It is embedded here as a labelled
    state machine: the program counter is the label the code is at, one
    step runs the straight-line code from that label to the next label (or
    to a [return] / the blocking [select {}]), the answers of the external
    calls made on the way are the step's input, and the calls themselves
    are emitted, in program order, as the step's trace. *)

From Stdlib Require Import ZArith String List Bool Lia.
From stdpp Require Import base list strings gmap.
Import ListNotations.

#[local] Set Warnings "-clear-no-such-hyp".

Local Open Scope string_scope.
Local Open Scope list_scope.
Local Open Scope Z_scope.

(** ** Constants of the imported packages *)

Module nvml.
(** [nvml.Return] is an int32; [SUCCESS] is its zero value. *)
Definition SUCCESS : Z := 0.
End nvml.

Module syscall.
(** [syscall.Signal] is an int; the numbers are the Linux ones. *)
Definition SIGHUP : Z := 1.
Definition SIGINT : Z := 2.
Definition SIGQUIT : Z := 3.
Definition SIGTERM : Z := 15.
End syscall.

Module fsnotify.
(** [fsnotify.Op] is a uint32 bit mask, [Create Op = 1 << iota]. *)
Definition Create : Z := 1.
Definition Write : Z := 2.
Definition Remove : Z := 4.
Definition Rename : Z := 8.
Definition Chmod : Z := 16.

Record Event := { Name : string; Op : Z }.
End fsnotify.

Module pluginapi.
Definition DevicePluginPath : string := "/var/lib/kubelet/device-plugins/".
Definition KubeletSocket : string := String.append DevicePluginPath "kubelet.sock".
End pluginapi.

(** ** Data *)

(** The argument of a [%v] / [%s] verb; formats are kept unexpanded. *)
Inductive fmt_arg :=
| VReturn (nvret : Z)
| VError (msg : string)
| VSignal (s : Z)
| VString (s : string).

(** An error built by [fmt.Errorf]; Go's [error] is [option error], [nil]
    is [None].  Errors coming back from collaborators are their message. *)
Record error := Errorf { format : string; arg : fmt_arg }.

Definition Device := string.

(** A [*nvidiadevice.NvidiaDevicePlugin].  [addr] is the pointer, [Devices]
    what [p.Devices()] returns and [Start] what [p.Start()] returns when it
    is called ([None] is [nil]); [p.Stop()] returns nothing. *)
Record NvidiaDevicePlugin := {
  addr : nat;
  Devices : list Device;
  Start : option string
}.

(** The calls [start()] makes, in the order it makes them. *)
Inductive Action :=
| GoPprofServer
| Info (msg : string)
| Infof (fmt : string) (args : list fmt_arg)
| NvmlInit
| NvmlShutdown
| NewFSWatcher (path : string)
| WatcherClose
| NewOSWatcher (sigs : list Z)
| LoadNvidiaConfig
| NewDeviceCache
| CacheStart
| CacheStop
| NewDeviceRegister
| RegisterStart
| RegisterStop
| PluginStop (p : NvidiaDevicePlugin)
| NewMigStrategy (flag : string)
| GetPlugins (ps : list NvidiaDevicePlugin)
| MakePluginStartError
| PluginStart (p : NvidiaDevicePlugin)
| ClosePluginStartError.

(** Where [start()] is: at its entry, at one of its two labels, parked in
    [select {}], or returned. *)
Inductive Label :=
| entry
| restart
| events
| blocked
| returned (err : option error).

(** The locals of [start()] that live across labels.  [pluginStartError]
    is [true] once the channel of the current cycle has been closed;
    [deferred] is the stack of deferred calls, last pushed first. *)
Record State := {
  pc : Label;
  plugins : list NvidiaDevicePlugin;
  started : nat;
  pluginStartError : bool;
  deferred : list Action
}.

(** The case a [select] in the [events:] loop takes. *)
Inductive SelectCase :=
| RecvPluginStartError
| RecvEvent (event : fsnotify.Event)
| RecvError (err : string)
| RecvSignal (s : Z).

(** What the environment answers during one step. *)
Inductive Input :=
| AtEntry (nvret : Z) (watcherErr : option string)
| AtRestart (strategyErr : option string) (got : list NvidiaDevicePlugin)
| AtEvents (c : SelectCase).

Definition initial : State :=
  {| pc := entry; plugins := []; started := 0; pluginStartError := false;
     deferred := [] |}.

(** [return err]: the deferred calls run, last pushed first. *)
Definition ret (st : State) (err : option error) (tr : list Action)
  : State * list Action :=
  ({| pc := returned err; plugins := plugins st; started := started st;
      pluginStartError := pluginStartError st; deferred := [] |},
   tr ++ deferred st).

Definition defer (a : list Action) (st : State) : State :=
  {| pc := pc st; plugins := plugins st; started := started st;
     pluginStartError := pluginStartError st; deferred := a ++ deferred st |}.

Definition goto (l : Label) (st : State) : State :=
  {| pc := l; plugins := plugins st; started := started st;
     pluginStartError := pluginStartError st; deferred := deferred st |}.

Definition watched : list Z :=
  [syscall.SIGHUP; syscall.SIGINT; syscall.SIGTERM; syscall.SIGQUIT].

Definition msg_prereq : string :=
  "You can check the prerequisites at: https://github.com/NVIDIA/k8s-device-plugin#prerequisites".
Definition msg_runtime : string :=
  "You can learn how to set the runtime at: https://github.com/NVIDIA/k8s-device-plugin#quick-start".
Definition msg_no_devices : string := "No devices found. Waiting indefinitely.".
Definition msg_retry : string :=
  "Could not contact Kubelet, retrying. Did you enable the device plugin feature gate?".

Section Supervisor.

(** The two command-line flags [start()] reads. *)
Variable failOnInitErrorFlag : bool.
Variable migStrategyFlag : string.

(** Lines 78-115: from the entry to the first arrival at [restart:]. *)
Definition entry_block (st : State) (nvret : Z) (watcherErr : option string)
  : State * list Action :=
  let tr := [GoPprofServer; Info "Loading NVML"; NvmlInit] in
  if negb (nvret =? nvml.SUCCESS) then
    let tr := tr ++
      [Infof "Failed to initialize NVML: %v." [VReturn nvret];
       Infof "If this is a GPU node, did you set the docker default runtime to `nvidia`?" [];
       Infof msg_prereq [];
       Infof msg_runtime [];
       Infof "If this is not a GPU node, you should set up a toleration or nodeSelector to only deploy this plugin on GPU nodes" []] in
    if failOnInitErrorFlag
    then ret st (Some (Errorf "failed to initialize NVML: %v" (VReturn nvret))) tr
    else (goto blocked st, tr)
  else
    let st := defer [NvmlShutdown; Info "Shutdown of NVML returned:"] st in
    let tr := tr ++ [Info "Starting FS watcher.";
                     NewFSWatcher pluginapi.DevicePluginPath] in
    match watcherErr with
    | Some err =>
        ret st (Some (Errorf "failed to create FS watcher: %v" (VError err))) tr
    | None =>
        let st := defer [WatcherClose] st in
        let tr := tr ++ [Info "Starting OS watcher."; NewOSWatcher watched;
                         LoadNvidiaConfig; NewDeviceCache; CacheStart] in
        let st := defer [CacheStop] st in
        let tr := tr ++ [NewDeviceRegister; RegisterStart] in
        let st := defer [RegisterStop] st in
        (goto restart st, tr)
    end.

(** Lines 131-149: the loop that starts the plugins.  The result is the
    started-count, whether a [Start()] failed (the [goto events] out of
    the loop was taken) and the calls made. *)
Fixpoint start_plugins (ps : list NvidiaDevicePlugin) (n : nat)
  : nat * bool * list Action :=
  match ps with
  | [] => (n, false, [])
  | p :: ps' =>
      if (length (Devices p) =? 0)%nat then start_plugins ps' n
      else match Start p with
           | Some _ =>
               (n, true,
                [PluginStart p; Info msg_retry; Info msg_prereq;
                 Info msg_runtime; ClosePluginStartError])
           | None =>
               let '(n', failed, tr) := start_plugins ps' (S n) in
               (n', failed, PluginStart p :: tr)
           end
  end.

(** Lines 118-153: from [restart:] to [events:] (or to the [return]). *)
Definition restart_block (st : State) (strategyErr : option string)
    (got : list NvidiaDevicePlugin) : State * list Action :=
  let tr := map PluginStop (plugins st) ++
            [Info "Retreiving plugins."; NewMigStrategy migStrategyFlag] in
  match strategyErr with
  | Some err =>
      ret st (Some (Errorf "error creating MIG strategy: %v" (VError err))) tr
  | None =>
      let '(n, failed, tr') := start_plugins got 0 in
      let tr := tr ++ [GetPlugins got; MakePluginStartError] ++ tr' in
      let st' := {| pc := events; plugins := got; started := n;
                    pluginStartError := failed; deferred := deferred st |} in
      if failed then (st', tr)
      else if (n =? 0)%nat then (st', tr ++ [Info msg_no_devices])
      else (st', tr)
  end.

(** Lines 158-193: one turn of the [for { select { ... } }] loop.  A
    receive from [pluginStartError] is possible only once the channel
    is closed: nothing is ever sent on it. *)
Definition events_block (st : State) (c : SelectCase)
  : option (State * list Action) :=
  match c with
  | RecvPluginStartError =>
      if pluginStartError st then Some (goto restart st, []) else None
  | RecvEvent event =>
      if String.eqb (fsnotify.Name event) pluginapi.KubeletSocket
         && (Z.land (fsnotify.Op event) fsnotify.Create =? fsnotify.Create)
      then Some (goto restart st,
                 [Infof "inotify: %s created, restarting."
                        [VString pluginapi.KubeletSocket]])
      else Some (st, [])
  | RecvError err => Some (st, [Infof "inotify: %s" [VError err]])
  | RecvSignal s =>
      if s =? syscall.SIGHUP
      then Some (goto restart st, [Info "Received SIGHUP, restarting."])
      else Some (ret st None
                   (Infof "Received signal %v, shutting down." [VSignal s]
                    :: map PluginStop (plugins st)))
  end.

(** One step of [start()].  A parked or returned [start()] takes no
    step, and an answer meant for another label is not an input. *)
Definition step (st : State) (i : Input) : option (State * list Action) :=
  match pc st, i with
  | entry, AtEntry nvret watcherErr => Some (entry_block st nvret watcherErr)
  | restart, AtRestart strategyErr got => Some (restart_block st strategyErr got)
  | events, AtEvents c => events_block st c
  | _, _ => None
  end.

(** Runs [start()] on a sequence of answers, up to the first one that
    is not an input of the state reached. *)
Fixpoint run (st : State) (ins : list Input) : State * list Action :=
  match ins with
  | [] => (st, [])
  | i :: ins' =>
      match step st i with
      | None => (st, [])
      | Some (st', tr) =>
          let '(st'', tr') := run st' ins' in (st'', tr ++ tr')
      end
  end.

(** [start()] from its entry. *)
Definition start (ins : list Input) : State * list Action :=
  run initial ins.

End Supervisor.

Arguments restart_block : simpl never.
Arguments entry_block : simpl never.

(** ** The caller: [rootCmd.Run] *)

Inductive Exit :=
| ExitZero
| Fatal (err : error).

(** [if err := start(); err != nil { klog.Fatal(err) }]: [klog.Fatal]
    logs and exits with a non-zero status. *)
Definition Run (r : option error) : Exit :=
  match r with
  | Some err => Fatal err
  | None => ExitZero
  end.

Definition nonzero (e : Exit) : bool :=
  match e with Fatal _ => true | ExitZero => false end.

(** ** Endpoints and states to run the definitions on *)

Definition endpoint (a : nat) (devs : list Device) (r : option string)
  : NvidiaDevicePlugin :=
  {| addr := a; Devices := devs; Start := r |}.

(** [start()] at a label, with the three teardown calls deferred. *)
Definition at_label (l : Label) (ps : list NvidiaDevicePlugin) (n : nat)
    (closed : bool) : State :=
  {| pc := l; plugins := ps; started := n; pluginStartError := closed;
     deferred := [RegisterStop; CacheStop; WatcherClose; NvmlShutdown;
                  Info "Shutdown of NVML returned:"] |}.

Definition refused : option string :=
  Some "dial unix /var/lib/kubelet/device-plugins/kubelet.sock: connect: connection refused".

Definition gpu_a : NvidiaDevicePlugin := endpoint 1 ["GPU-0"; "GPU-1"] None.
Definition no_gpu : NvidiaDevicePlugin := endpoint 2 [] None.
Definition gpu_b : NvidiaDevicePlugin := endpoint 3 ["GPU-2"] None.
Definition gpu_down : NvidiaDevicePlugin := endpoint 4 ["GPU-3"] refused.

(** A start-up, a first cycle, a SIGHUP and a second cycle. *)
Definition two_cycles : list Input :=
  [AtEntry nvml.SUCCESS None; AtRestart None [gpu_a; no_gpu];
   AtEvents (RecvSignal syscall.SIGHUP); AtRestart None [gpu_b]].

(** A start-up and a cycle over three endpoints owning 2, 0 and 1 devices. *)
Definition one_cycle : list Input :=
  [AtEntry nvml.SUCCESS None; AtRestart None [gpu_a; no_gpu; gpu_b]].

(** [nvml.ERROR_LIBRARY_NOT_FOUND]. *)
Definition library_not_found : Z := 12.

Definition other_socket : fsnotify.Event :=
  {| fsnotify.Name := "/var/lib/kubelet/device-plugins/nvidia.sock";
     fsnotify.Op := fsnotify.Create |}.

(** ** Observers of a trace *)

(** The endpoints [Start()] was called on, and those [Stop()] was. *)
Fixpoint start_calls (tr : list Action) : list NvidiaDevicePlugin :=
  match tr with
  | [] => []
  | PluginStart p :: tr' => p :: start_calls tr'
  | _ :: tr' => start_calls tr'
  end.

Fixpoint stop_calls (tr : list Action) : list NvidiaDevicePlugin :=
  match tr with
  | [] => []
  | PluginStop p :: tr' => p :: stop_calls tr'
  | _ :: tr' => stop_calls tr'
  end.

(** How many times the plugin-failure channel was closed. *)
Fixpoint failure_triggers (tr : list Action) : nat :=
  match tr with
  | [] => 0
  | ClosePluginStartError :: tr' => S (failure_triggers tr')
  | _ :: tr' => failure_triggers tr'
  end.

Fixpoint resolver_calls (tr : list Action) : nat :=
  match tr with
  | [] => 0
  | NewMigStrategy _ :: tr' => S (resolver_calls tr')
  | _ :: tr' => resolver_calls tr'
  end.

Definition logs (m : string) (tr : list Action) : bool :=
  existsb (fun a => match a with Info m' => String.eqb m m' | _ => false end) tr.

(** An action that is no call on a plugin endpoint and builds no set. *)
Definition quiet (a : Action) : bool :=
  match a with
  | PluginStart _ | PluginStop _ | GetPlugins _ => false
  | _ => true
  end.

Definition addrs (ps : list NvidiaDevicePlugin) : gset nat :=
  list_to_set (map addr ps).

(** The endpoints that are live after an action: [Start()] makes an
    endpoint live (also when it fails: it may have got half-way),
    [Stop()] ends that. *)
Definition observe_live (live : gset nat) (a : Action) : gset nat :=
  match a with
  | PluginStart p => {[addr p]} ∪ live
  | PluginStop p => live ∖ {[addr p]}
  | _ => live
  end.

(** The PluginSet after an action: the last one [GetPlugins] returned. *)
Definition observe_set (cur : list NvidiaDevicePlugin) (a : Action)
  : list NvidiaDevicePlugin :=
  match a with
  | GetPlugins ps => ps
  | _ => cur
  end.

Definition live_from (live : gset nat) (tr : list Action) : gset nat :=
  fold_left observe_live tr live.

Definition set_from (cur : list NvidiaDevicePlugin) (tr : list Action)
  : list NvidiaDevicePlugin :=
  fold_left observe_set tr cur.

Definition live_after (tr : list Action) : gset nat := live_from ∅ tr.
Definition current_set (tr : list Action) : list NvidiaDevicePlugin :=
  set_from [] tr.

(** A trace keeps one PluginSet live at a time: a set is built only when
    no endpoint is live, and only endpoints of the last set built are
    started. *)
Fixpoint one_set (cur : list NvidiaDevicePlugin) (live : gset nat)
    (tr : list Action) : Prop :=
  match tr with
  | [] => True
  | a :: tr' =>
      match a with
      | GetPlugins _ => live = ∅
      | PluginStart p => p ∈ cur
      | _ => True
      end ∧ one_set (observe_set cur a) (observe_live live a) tr'
  end.

(** The state invariant behind it: nothing deferred touches a plugin. *)
Definition quiet_defers (st : State) : Prop :=
  forallb quiet (deferred st) = true.

(** ** Predicates on endpoints, inputs and states *)

Definition builds_or_starts (a : Action) : bool :=
  match a with
  | GetPlugins _ | PluginStart _ => true
  | _ => false
  end.

Fixpoint watcher_calls (tr : list Action) : nat :=
  match tr with
  | [] => 0
  | NewFSWatcher _ :: tr' | NewOSWatcher _ :: tr' => S (watcher_calls tr')
  | _ :: tr' => watcher_calls tr'
  end.

Definition is_log (a : Action) : bool :=
  match a with
  | Info _ | Infof _ _ => true
  | _ => false
  end.

Definition has_devices (p : NvidiaDevicePlugin) : bool :=
  negb (length (Devices p) =? 0)%nat.

(** An endpoint the loop gets past: it is skipped, or its [Start()]
    succeeds. *)
Definition passes (p : NvidiaDevicePlugin) : bool :=
  negb (has_devices p) || bool_decide (Start p = None).

Definition halted (st : State) : bool :=
  match pc st with
  | blocked | returned _ => true
  | _ => false
  end.

(** An input the event loop lets pass: a filesystem event for another
    path, or a watcher error. *)
Definition ignored (i : Input) : bool :=
  match i with
  | AtEvents (RecvEvent event) =>
      negb (String.eqb (fsnotify.Name event) pluginapi.KubeletSocket)
  | AtEvents (RecvError _) => true
  | _ => false
  end.

(** What a stretch of trace does to the observers: it keeps one set
    live, leaves [cur'] as the set, and only endpoints of [cur'] live. *)
Definition stretch (cur : list NvidiaDevicePlugin) (live : gset nat)
    (tr : list Action) (cur' : list NvidiaDevicePlugin) : Prop :=
  one_set cur live tr ∧ set_from cur tr = cur' ∧
  live_from live tr ⊆ addrs cur'.

(** ** Setup, teardown and the sets built *)

(** The calls on what [start()] sets up once: NVML, the two watchers, the
    configuration, the device cache and the register (and the pprof
    goroutine). *)
Definition infra (a : Action) : bool :=
  match a with
  | GoPprofServer | NvmlInit | NvmlShutdown | NewFSWatcher _ | WatcherClose
  | NewOSWatcher _ | LoadNvidiaConfig | NewDeviceCache | CacheStart
  | CacheStop | NewDeviceRegister | RegisterStart | RegisterStop => true
  | _ => false
  end.

Definition infra_calls (tr : list Action) : list Action := List.filter infra tr.

(** Lines 78-115 when nothing fails, and the four [defer]s of those
    lines in the order they run. *)
Definition setup_calls : list Action :=
  [GoPprofServer; NvmlInit; NewFSWatcher pluginapi.DevicePluginPath;
   NewOSWatcher watched; LoadNvidiaConfig; NewDeviceCache; CacheStart;
   NewDeviceRegister; RegisterStart].

Definition teardown_calls : list Action :=
  [RegisterStop; CacheStop; WatcherClose; NvmlShutdown].

Definition has_returned (st : State) : bool :=
  match pc st with
  | returned _ => true
  | _ => false
  end.

(** The endpoints [GetPlugins] has returned, set after set. *)
Fixpoint built (tr : list Action) : list NvidiaDevicePlugin :=
  match tr with
  | [] => []
  | GetPlugins ps :: tr' => ps ++ built tr'
  | _ :: tr' => built tr'
  end.

(** The endpoints [start()] still holds in [plugins] and will stop: at
    its two labels the current set, otherwise none. *)
Definition owed (st : State) : list NvidiaDevicePlugin :=
  match pc st with
  | restart | events => plugins st
  | _ => []
  end.

(** The answer that makes [start()] return [r]: each of the [return]
    statements of lines 91, 100, 127 and 194. *)
Definition cause (fail : bool) (i : Input) (r : option error) : Prop :=
  match i with
  | AtEntry nvret werr =>
      (nvret ≠ nvml.SUCCESS ∧ fail = true ∧
       r = Some (Errorf "failed to initialize NVML: %v" (VReturn nvret)))
      ∨ (nvret = nvml.SUCCESS ∧ ∃ e, werr = Some e ∧
         r = Some (Errorf "failed to create FS watcher: %v" (VError e)))
  | AtRestart (Some e) _ =>
      r = Some (Errorf "error creating MIG strategy: %v" (VError e))
  | AtRestart None _ => False
  | AtEvents (RecvSignal s) => s ≠ syscall.SIGHUP ∧ r = None
  | AtEvents _ => False
  end.

(** The resolver is asked, and a set built, only with everything set up
    and nothing torn down: [seen] is the setup and teardown so far. *)
Fixpoint guarded (seen : list Action) (tr : list Action) : Prop :=
  match tr with
  | [] => True
  | a :: tr' =>
      match a with
      | NewMigStrategy _ | GetPlugins _ => seen = setup_calls
      | _ => True
      end ∧ guarded (if infra a then seen ++ [a] else seen) tr'
  end.

(** [n] cycles over [got], each left through the closed failure channel. *)
Fixpoint retries (n : nat) (got : list NvidiaDevicePlugin) : list Input :=
  match n with
  | O => []
  | S n' => AtRestart None got :: AtEvents RecvPluginStartError :: retries n' got
  end.

(** What holds of the setup and teardown calls once [start()] has
    reached [restart:]. *)
Definition set_up (st : State) (tr : list Action) : Prop :=
  match pc st with
  | restart | events =>
      infra_calls tr = setup_calls ∧
      deferred st = teardown_calls ++ [Info "Shutdown of NVML returned:"]
  | returned _ => infra_calls tr = setup_calls ++ teardown_calls
  | _ => False
  end.

(** The stop calls made and the endpoints still held add up to the
    endpoints built. *)
Definition balanced (st : State) (tr : list Action) : Prop :=
  quiet_defers st ∧ (pc st = entry → plugins st = []) ∧
  stop_calls tr ++ owed st = built tr.

(** While [start()] waits at [events:] after a cycle without failure,
    the live endpoints are those of the set that own a device. *)
Definition serving (st : State) (tr : list Action) : Prop :=
  quiet_defers st ∧ live_after tr ⊆ addrs (plugins st) ∧
  (pc st = events → pluginStartError st = false →
   live_after tr = addrs (List.filter has_devices (plugins st)) ∧
   started st = length (List.filter has_devices (plugins st))).

(** The two calls on the MIG strategy. *)
Definition asks (a : Action) : bool :=
  match a with
  | NewMigStrategy _ | GetPlugins _ => true
  | _ => false
  end.

(** What has been stopped when [a] is called after the trace [pre]: a
    set is built only once every endpoint built before has been stopped,
    and an endpoint is started only if it is of the set built last and
    every endpoint of the sets before that one has been stopped. *)
Definition previous_stopped (pre : list Action) (a : Action) : Prop :=
  match a with
  | GetPlugins _ => stop_calls pre = built pre
  | PluginStart p =>
      built pre = stop_calls pre ++ current_set pre ∧ p ∈ current_set pre
  | _ => True
  end.

(** [previous_stopped] at each call of [tr], made after [pre]. *)
Fixpoint stopped_before (pre : list Action) (tr : list Action) : Prop :=
  match tr with
  | [] => True
  | a :: tr' => previous_stopped pre a ∧ stopped_before (pre ++ [a]) tr'
  end.

(** What a run keeps: the endpoints held are the set built last, the
    stop calls are in balance with the sets built, and every set was
    built, every endpoint started, with the previous ones stopped. *)
Definition replaced_in_turn (st : State) (tr : list Action) : Prop :=
  balanced st tr ∧ plugins st = current_set tr ∧ stopped_before [] tr.

(** ** Lemmas on traces *)

Lemma live_from_app live t1 t2 :
  live_from live (t1 ++ t2) = live_from (live_from live t1) t2.
Proof. apply fold_left_app. Qed.

Lemma set_from_app cur t1 t2 :
  set_from cur (t1 ++ t2) = set_from (set_from cur t1) t2.
Proof. apply fold_left_app. Qed.

Lemma live_from_cons live a tr :
  live_from live (a :: tr) = live_from (observe_live live a) tr.
Proof. reflexivity. Qed.

Lemma addrs_cons p ps : addrs (p :: ps) = {[addr p]} ∪ addrs ps.
Proof. reflexivity. Qed.

Lemma one_set_app cur live t1 t2 :
  one_set cur live (t1 ++ t2) ↔
  one_set cur live t1 ∧ one_set (set_from cur t1) (live_from live t1) t2.
Proof.
  revert cur live. induction t1 as [|a t1 IH]; intros cur live; simpl.
  - tauto.
  - rewrite IH. tauto.
Qed.

Lemma quiet_trace cur live tr :
  forallb quiet tr = true →
  one_set cur live tr ∧ set_from cur tr = cur ∧ live_from live tr = live.
Proof.
  induction tr as [|a tr IH]; simpl; [done|].
  intros [Ha Htr]%andb_prop. specialize (IH Htr).
  destruct a; simpl in *; try discriminate; tauto.
Qed.

(** What [one_set] says of each point of a trace. *)
Lemma one_set_prefix t1 : ∀ cur live t2,
  one_set cur live (t1 ++ t2) → live ⊆ addrs cur →
  live_from live t1 ⊆ addrs (set_from cur t1) ∧
  one_set (set_from cur t1) (live_from live t1) t2.
Proof.
  induction t1 as [|a t1 IH]; intros cur live t2 H Hl; [done|].
  destruct H as [Ha H]. apply (IH _ _ _ H).
  destruct a; simpl in *; try done.
  - set_solver.
  - subst. set_solver.
  - apply list_elem_of_fmap_2 with (f := addr) in Ha. unfold addrs.
    set_solver.
Qed.

Lemma stop_pass_set cur ps : set_from cur (map PluginStop ps) = cur.
Proof. induction ps as [|p ps IH]; simpl; [done | apply IH]. Qed.

Lemma stop_pass_one_set cur live ps : one_set cur live (map PluginStop ps).
Proof. revert live. induction ps as [|p ps IH]; intros live; simpl; auto. Qed.

Lemma stop_pass_live live ps :
  live_from live (map PluginStop ps) = live ∖ addrs ps.
Proof.
  revert live. induction ps as [|p ps IH]; intros live.
  - unfold addrs. simpl. set_solver.
  - rewrite map_cons, live_from_cons, IH, addrs_cons. simpl. set_solver.
Qed.

Lemma stop_pass_clears live ps :
  live ⊆ addrs ps → live_from live (map PluginStop ps) = ∅.
Proof. intros H. rewrite stop_pass_live. set_solver. Qed.

Lemma stop_calls_app t1 t2 : stop_calls (t1 ++ t2) = stop_calls t1 ++ stop_calls t2.
Proof.
  induction t1 as [|a t1 IH]; [done|]. destruct a; simpl; by rewrite ?IH.
Qed.

Lemma stop_calls_stop_pass ps : stop_calls (map PluginStop ps) = ps.
Proof. induction ps as [|p ps IH]; simpl; by rewrite ?IH. Qed.

Lemma stop_calls_quiet tr : forallb quiet tr = true → stop_calls tr = [].
Proof.
  induction tr as [|a tr IH]; [done|]. simpl. intros [Ha Ht]%andb_prop.
  destruct a; try discriminate; by apply IH.
Qed.

Lemma start_calls_app t1 t2 :
  start_calls (t1 ++ t2) = start_calls t1 ++ start_calls t2.
Proof.
  induction t1 as [|a t1 IH]; [done|]. destruct a; simpl; by rewrite ?IH.
Qed.

Lemma start_calls_starts ps : start_calls (map PluginStart ps) = ps.
Proof. induction ps as [|p ps IH]; simpl; by rewrite ?IH. Qed.

Lemma start_calls_stop_pass ps : start_calls (map PluginStop ps) = [].
Proof. induction ps as [|p ps IH]; simpl; by rewrite ?IH. Qed.

Lemma start_calls_quiet tr : forallb quiet tr = true → start_calls tr = [].
Proof.
  induction tr as [|a tr IH]; [done|]. simpl. intros [Ha Ht]%andb_prop.
  destruct a; try discriminate; by apply IH.
Qed.

Lemma failure_triggers_app t1 t2 :
  failure_triggers (t1 ++ t2) = (failure_triggers t1 + failure_triggers t2)%nat.
Proof.
  induction t1 as [|a t1 IH]; [done|]. destruct a; simpl; by rewrite ?IH.
Qed.

Lemma failure_triggers_starts ps : failure_triggers (map PluginStart ps) = 0%nat.
Proof. induction ps as [|p ps IH]; simpl; by rewrite ?IH. Qed.

Lemma failure_triggers_stop_pass ps : failure_triggers (map PluginStop ps) = 0%nat.
Proof. induction ps as [|p ps IH]; simpl; by rewrite ?IH. Qed.

Lemma logs_app m t1 t2 : logs m (t1 ++ t2) = logs m t1 || logs m t2.
Proof. apply existsb_app. Qed.

Lemma logs_starts m ps : logs m (map PluginStart ps) = false.
Proof. induction ps as [|p ps IH]; simpl; by rewrite ?IH. Qed.

Lemma logs_stop_pass m ps : logs m (map PluginStop ps) = false.
Proof. induction ps as [|p ps IH]; simpl; by rewrite ?IH. Qed.

Lemma stop_calls_starts ps : stop_calls (map PluginStart ps) = [].
Proof. induction ps as [|p ps IH]; [done | exact IH]. Qed.

Create Rewrite HintDb trace.
#[local] Hint Rewrite start_calls_app start_calls_starts start_calls_stop_pass
  stop_calls_app stop_calls_stop_pass stop_calls_starts
  failure_triggers_app failure_triggers_starts failure_triggers_stop_pass
  logs_app logs_starts logs_stop_pass app_nil_r : trace.

Ltac trace := repeat (autorewrite with trace; simpl).

(** ** The starting loop *)

Lemma start_plugins_all ps : ∀ n,
  forallb passes ps = true →
  start_plugins ps n =
    ((n + length (List.filter has_devices ps))%nat, false,
     map PluginStart (List.filter has_devices ps)).
Proof.
  induction ps as [|p ps IH]; intros n Hall; simpl.
  - by rewrite Nat.add_0_r.
  - simpl in Hall. apply andb_prop in Hall as [Hp Hps].
    unfold passes, has_devices in *.
    destruct (length (Devices p) =? 0)%nat; simpl in *; [by apply IH|].
    apply bool_decide_eq_true in Hp. rewrite Hp, (IH (S n) Hps).
    by rewrite Nat.add_succ_r.
Qed.

Lemma start_plugins_abort pre p post : ∀ n,
  forallb passes pre = true → has_devices p = true → Start p ≠ None →
  start_plugins (pre ++ p :: post) n =
    ((n + length (List.filter has_devices pre))%nat, true,
     map PluginStart (List.filter has_devices pre) ++
     [PluginStart p; Info msg_retry; Info msg_prereq; Info msg_runtime;
      ClosePluginStartError]).
Proof.
  induction pre as [|q pre IH]; intros n Hall Hdev Hfail; simpl.
  - unfold has_devices in Hdev.
    destruct (length (Devices p) =? 0)%nat; [discriminate|].
    destruct (Start p); [by rewrite Nat.add_0_r | done].
  - simpl in Hall. apply andb_prop in Hall as [Hq Hpre].
    unfold passes, has_devices in Hq |- *.
    destruct (length (Devices q) =? 0)%nat; simpl in *; [by apply IH|].
    apply bool_decide_eq_true in Hq. rewrite Hq, (IH (S n) Hpre Hdev Hfail).
    by rewrite Nat.add_succ_r.
Qed.

(** Every plugin set splits at its first failing [Start()], if any. *)
Lemma first_failure ps :
  forallb passes ps = true ∨
  ∃ pre p post, ps = pre ++ p :: post ∧ forallb passes pre = true ∧
                has_devices p = true ∧ Start p ≠ None.
Proof.
  induction ps as [|q ps IH]; [by left|].
  destruct (passes q) eqn:Hq.
  - destruct IH as [Hall|(pre & p & post & -> & Hpre & Hp & Hf)].
    + left. simpl. by rewrite Hq.
    + right. exists (q :: pre), p, post. simpl. by rewrite Hq.
  - right. exists [], q, ps. unfold passes in Hq.
    apply orb_false_elim in Hq as [Hd Hs].
    apply negb_false_iff in Hd. apply bool_decide_eq_false in Hs. done.
Qed.

Lemma start_plugins_calls ps : ∀ n,
  (∀ p, p ∈ start_calls (start_plugins ps n).2 → Devices p ≠ [])
  ∧ (start_plugins ps n).1.1 =
    (n + length (List.filter (λ p, bool_decide (Start p = None))
                   (start_calls (start_plugins ps n).2)))%nat.
Proof.
  induction ps as [|p ps IH]; intros n; simpl.
  - split; [set_solver | lia].
  - destruct (length (Devices p) =? 0)%nat eqn:Hd; [apply IH|].
    assert (Hp : Devices p ≠ []).
    { intros E. rewrite E in Hd. discriminate. }
    destruct (Start p) as [e|] eqn:Hs.
    + simpl. rewrite Hs. simpl. split; [|lia].
      intros q Hq. assert (q = p) as -> by set_solver. done.
    + destruct (IH (S n)) as [IH1 IH2].
      destruct (start_plugins ps (S n)) as [[n' f] tr]. simpl in *.
      rewrite Hs. simpl. split; [|lia].
      intros q [->|Hq]%elem_of_cons; [done | by apply IH1].
Qed.

Lemma start_plugins_set cur ps n :
  set_from cur (start_plugins ps n).2 = cur.
Proof.
  revert n. induction ps as [|p ps IH]; intros n; simpl; [done|].
  destruct (length (Devices p) =? 0)%nat; [apply IH|].
  destruct (Start p); [done|].
  specialize (IH (S n)). destruct (start_plugins ps (S n)) as [[n' f] tr].
  simpl in *. exact IH.
Qed.

Lemma start_plugins_one_set cur live ps n :
  (∀ p, p ∈ ps → p ∈ cur) → one_set cur live (start_plugins ps n).2.
Proof.
  revert n live. induction ps as [|p ps IH]; intros n live Hin; simpl; [done|].
  assert (Hps : ∀ q, q ∈ ps → q ∈ cur) by (intros q Hq; apply Hin; set_solver).
  destruct (length (Devices p) =? 0)%nat; [by apply IH|].
  destruct (Start p).
  - simpl. split; [apply Hin; set_solver | tauto].
  - specialize (IH (S n) ({[addr p]} ∪ live) Hps).
    destruct (start_plugins ps (S n)) as [[n' f] tr]. simpl in *.
    split; [apply Hin; set_solver | exact IH].
Qed.

Lemma start_plugins_live live ps n :
  live_from live (start_plugins ps n).2 ⊆ live ∪ addrs ps.
Proof.
  revert n live. induction ps as [|p ps IH]; intros n live.
  - simpl. set_solver.
  - rewrite addrs_cons. simpl.
    destruct (length (Devices p) =? 0)%nat.
    + specialize (IH n live). set_solver.
    + destruct (Start p).
      * simpl. set_solver.
      * specialize (IH (S n) ({[addr p]} ∪ live)).
        destruct (start_plugins ps (S n)) as [[n' f] tr].
        unfold live_from in *. simpl in *. set_solver.
Qed.

Lemma stop_calls_start_plugins ps n : stop_calls (start_plugins ps n).2 = [].
Proof.
  revert n. induction ps as [|p ps IH]; intros n; simpl; [done|].
  destruct (length (Devices p) =? 0)%nat; [apply IH|].
  destruct (Start p); [done|]. specialize (IH (S n)).
  by destruct (start_plugins ps (S n)) as [[n' f] tr].
Qed.

Lemma logs_start_plugins ps : ∀ n, logs msg_no_devices (start_plugins ps n).2 = false.
Proof.
  induction ps as [|p ps IH]; intros n; simpl; [done|].
  destruct (length (Devices p) =? 0)%nat; [apply IH|].
  destruct (Start p); [done|]. specialize (IH (S n)).
  by destruct (start_plugins ps (S n)) as [[n' f] tr].
Qed.

Lemma no_devices_filter ps :
  forallb (λ p, negb (has_devices p)) ps = true →
  List.filter has_devices ps = [] ∧ forallb passes ps = true.
Proof.
  induction ps as [|p ps IH]; [done|]. simpl.
  intros [Hp Hps]%andb_prop. destruct (IH Hps) as [-> ->].
  apply negb_true_iff in Hp. unfold passes. by rewrite Hp.
Qed.

(** ** The three blocks *)

(** The trace of a resolved cycle, written with the loop's own result. *)
Lemma restart_block_unfold mig st got :
  restart_block mig st None got =
    let '(n, failed, tr') := start_plugins got 0 in
    ({| pc := events; plugins := got; started := n;
        pluginStartError := failed; deferred := deferred st |},
     map PluginStop (plugins st) ++
     [Info "Retreiving plugins."; NewMigStrategy mig] ++
     [GetPlugins got; MakePluginStartError] ++ tr' ++
     (if failed then [] else if (n =? 0)%nat then [Info msg_no_devices] else [])).
Proof.
  unfold restart_block. destruct (start_plugins got 0) as [[n failed] tr'].
  destruct failed; [|destruct (n =? 0)%nat];
    by rewrite <- ?app_assoc, ?app_nil_r.
Qed.

(** The trace of a cycle whose strategy resolves: the stop pass, the
    resolution, the build, the starting loop and at most one log line. *)
Lemma restart_block_trace mig st got :
  ∃ tail, forallb quiet tail = true ∧
    (restart_block mig st None got).2 =
      map PluginStop (plugins st) ++
      [Info "Retreiving plugins."; NewMigStrategy mig] ++
      ([GetPlugins got; MakePluginStartError] ++ (start_plugins got 0).2) ++
      tail.
Proof.
  unfold restart_block.
  destruct (start_plugins got 0) as [[n failed] tr'].
  destruct failed; [|destruct (n =? 0)%nat].
  - exists []. split; [done|]. simpl. by rewrite <- !app_assoc, app_nil_r.
  - exists [Info msg_no_devices]. split; [done|]. simpl.
    by rewrite <- !app_assoc.
  - exists []. split; [done|]. simpl. by rewrite <- !app_assoc, app_nil_r.
Qed.

Lemma restart_block_state mig st got :
  pc (restart_block mig st None got).1 = events ∧
  plugins (restart_block mig st None got).1 = got ∧
  started (restart_block mig st None got).1 = (start_plugins got 0).1.1 ∧
  pluginStartError (restart_block mig st None got).1 = (start_plugins got 0).1.2 ∧
  deferred (restart_block mig st None got).1 = deferred st.
Proof.
  unfold restart_block.
  destruct (start_plugins got 0) as [[n failed] tr'].
  destruct failed; [|destruct (n =? 0)%nat]; done.
Qed.

Lemma restart_block_stops_first mig st serr got :
  ∃ rest, (restart_block mig st serr got).2 = map PluginStop (plugins st) ++ rest.
Proof.
  destruct serr as [err|].
  - unfold restart_block. simpl. rewrite <- app_assoc. eauto.
  - destruct (restart_block_trace mig st got) as (tail & _ & ->). eauto.
Qed.

(** Every cycle opens with the stop pass and the resolution. *)
Lemma restart_block_opening mig st serr got :
  ∃ rest, (restart_block mig st serr got).2 =
    map PluginStop (plugins st) ++
    Info "Retreiving plugins." :: NewMigStrategy mig :: rest.
Proof.
  destruct serr as [err|].
  - unfold restart_block. simpl. rewrite <- app_assoc. simpl. eauto.
  - destruct (restart_block_trace mig st got) as (tail & _ & ->). simpl. eauto.
Qed.

Lemma logs_restart_block mig st got :
  logs msg_no_devices (restart_block mig st None got).2 =
  negb (start_plugins got 0).1.2 && ((start_plugins got 0).1.1 =? 0)%nat.
Proof.
  rewrite restart_block_unfold.
  pose proof (logs_start_plugins got 0) as Hl.
  destruct (start_plugins got 0) as [[n failed] tr']. simpl in Hl |- *.
  destruct failed; [|destruct (n =? 0)%nat]; trace; by rewrite Hl.
Qed.

(** The three lines logged when a [Start()] fails. *)
Lemma logs_retry_start_plugins m ps : ∀ n,
  logs m (start_plugins ps n).2 =
  (start_plugins ps n).1.2 &&
  logs m [Info msg_retry; Info msg_prereq; Info msg_runtime].
Proof.
  induction ps as [|p ps IH]; intros n; simpl; [done|].
  destruct (length (Devices p) =? 0)%nat; [apply IH|].
  destruct (Start p).
  - simpl. by rewrite !orb_false_r.
  - specialize (IH (S n)).
    by destruct (start_plugins ps (S n)) as [[n' f] tr].
Qed.

Lemma logs_retry_restart_block m mig st got :
  String.eqb m "Retreiving plugins." = false →
  String.eqb m msg_no_devices = false →
  logs m (restart_block mig st None got).2 =
  pluginStartError (restart_block mig st None got).1 &&
  logs m [Info msg_retry; Info msg_prereq; Info msg_runtime].
Proof.
  intros H1 H2.
  destruct (restart_block_state mig st got) as (_ & _ & _ & -> & _).
  rewrite restart_block_unfold.
  pose proof (logs_retry_start_plugins m got 0) as Hl.
  destruct (start_plugins got 0) as [[n failed] tr']. simpl in Hl |- *.
  rewrite logs_app, logs_stop_pass. simpl. rewrite H1. simpl.
  rewrite logs_app, Hl.
  destruct failed; [|destruct (n =? 0)%nat]; simpl;
    rewrite ?H2, ?orb_false_r; done.
Qed.

Lemma entry_block_plugins fail st nvret werr :
  plugins (entry_block fail st nvret werr).1 = plugins st.
Proof.
  unfold entry_block.
  by destruct (negb (nvret =? nvml.SUCCESS)); [destruct fail | destruct werr].
Qed.

Lemma entry_block_quiet fail nvret werr :
  forallb quiet (entry_block fail initial nvret werr).2 = true ∧
  quiet_defers (entry_block fail initial nvret werr).1.
Proof.
  unfold entry_block.
  by destruct (negb (nvret =? nvml.SUCCESS)); [destruct fail | destruct werr].
Qed.

(** No turn of the event loop calls [Start()]. *)
Lemma events_block_no_start st c st' tr :
  quiet_defers st → events_block st c = Some (st', tr) → start_calls tr = [].
Proof.
  intros Hq Hs. unfold events_block in Hs. destruct c as [|event|err|s].
  - destruct (pluginStartError st); [|discriminate]. by injection Hs as <- <-.
  - by destruct (_ && _); injection Hs as <- <-.
  - by injection Hs as <- <-.
  - destruct (s =? syscall.SIGHUP); injection Hs as <- <-; [done|]. simpl.
    by rewrite start_calls_app, start_calls_stop_pass, start_calls_quiet.
Qed.

Lemma ignored_step fail mig st i :
  pc st = events → ignored i = true →
  ∃ tr, step fail mig st i = Some (st, tr) ∧ forallb is_log tr = true.
Proof.
  intros Hpc Hi. unfold step. rewrite Hpc.
  destruct i as [| |c]; try discriminate.
  destruct c as [|event|err|s]; try discriminate; simpl in *.
  - apply negb_true_iff in Hi. rewrite Hi. simpl. by exists [].
  - eauto.
Qed.

Lemma land_create (op : Z) :
  (Z.land op fsnotify.Create =? fsnotify.Create) = Z.testbit op 0.
Proof.
  unfold fsnotify.Create. change 1 with (Z.ones 1).
  rewrite Z.land_ones by lia. change (2 ^ 1) with 2.
  rewrite <- Z.bit0_mod. by destruct (Z.testbit op 0).
Qed.

Lemma halted_no_step fail mig st i : halted st = true → step fail mig st i = None.
Proof. unfold halted, step. by destruct (pc st), i. Qed.

Lemma halted_run fail mig st ins :
  halted st = true → run fail mig st ins = (st, []).
Proof.
  intros H. destruct ins as [|i ins]; [done|]. simpl.
  by rewrite halted_no_step.
Qed.

(** ** The invariant of a run *)

Lemma stretch_quiet cur live tr :
  forallb quiet tr = true → live ⊆ addrs cur → stretch cur live tr cur.
Proof.
  intros Hq Hl. destruct (quiet_trace cur live tr Hq) as (H1 & H2 & H3).
  unfold stretch. rewrite H2, H3. auto.
Qed.

Lemma stretch_quiet_app cur live t1 t2 cur' :
  forallb quiet t1 = true → stretch cur live t2 cur' →
  stretch cur live (t1 ++ t2) cur'.
Proof.
  intros Hq (H1 & H2 & H3).
  destruct (quiet_trace cur live t1 Hq) as (Q1 & Q2 & Q3).
  unfold stretch. rewrite one_set_app, set_from_app, live_from_app, Q2, Q3.
  auto.
Qed.

Lemma stretch_app_quiet cur live t1 t2 cur' :
  stretch cur live t1 cur' → forallb quiet t2 = true →
  stretch cur live (t1 ++ t2) cur'.
Proof.
  intros (H1 & H2 & H3) Hq.
  destruct (quiet_trace cur' (live_from live t1) t2 Hq) as (Q1 & Q2 & Q3).
  unfold stretch. rewrite one_set_app, set_from_app, live_from_app, H2, Q2, Q3.
  auto.
Qed.

Lemma stretch_stop_pass cur live t cur' :
  live ⊆ addrs cur → stretch cur ∅ t cur' →
  stretch cur live (map PluginStop cur ++ t) cur'.
Proof.
  intros Hl (H1 & H2 & H3). unfold stretch.
  rewrite one_set_app, set_from_app, live_from_app.
  rewrite stop_pass_set, (stop_pass_clears _ _ Hl).
  split; [split; [apply stop_pass_one_set | done] | done].
Qed.

Lemma stretch_build cur got n :
  stretch cur ∅ ([GetPlugins got; MakePluginStartError]
                 ++ (start_plugins got n).2) got.
Proof.
  unfold stretch. rewrite one_set_app, set_from_app, live_from_app. simpl.
  rewrite start_plugins_set. repeat split; auto.
  - by apply start_plugins_one_set.
  - etrans; [apply start_plugins_live|]. set_solver.
Qed.

Lemma restart_block_stretch mig st serr got live :
  quiet_defers st → live ⊆ addrs (plugins st) →
  stretch (plugins st) live (restart_block mig st serr got).2
          (plugins (restart_block mig st serr got).1)
  ∧ quiet_defers (restart_block mig st serr got).1.
Proof.
  intros Hq Hl. destruct serr as [err|].
  - unfold restart_block. simpl. split; [|done]. rewrite <- app_assoc.
    apply stretch_stop_pass; [done|]. apply stretch_quiet; [|set_solver].
    exact Hq.
  - destruct (restart_block_trace mig st got) as (tail & Htail & ->).
    destruct (restart_block_state mig st got) as (_ & -> & _ & _ & Hd).
    split; [|unfold quiet_defers; by rewrite Hd].
    apply stretch_stop_pass; [done|]. apply stretch_quiet_app; [done|].
    apply stretch_app_quiet; [apply stretch_build | done].
Qed.

Lemma entry_block_stretch fail st nvret werr live :
  quiet_defers st → live ⊆ addrs (plugins st) →
  stretch (plugins st) live (entry_block fail st nvret werr).2
          (plugins (entry_block fail st nvret werr).1)
  ∧ quiet_defers (entry_block fail st nvret werr).1.
Proof.
  intros Hq Hl. unfold entry_block, quiet_defers in *.
  destruct (negb (nvret =? nvml.SUCCESS)); [destruct fail | destruct werr];
    simpl; (split; [apply stretch_quiet; [|done] | done]); simpl;
    first [exact Hq | reflexivity].
Qed.

Lemma events_block_stretch st c st' tr live :
  events_block st c = Some (st', tr) →
  quiet_defers st → live ⊆ addrs (plugins st) →
  stretch (plugins st) live tr (plugins st') ∧ quiet_defers st'.
Proof.
  intros Hs Hq Hl. unfold events_block in Hs.
  destruct c as [|event|err|s].
  - destruct (pluginStartError st); [|discriminate]. injection Hs as <- <-.
    split; [by apply stretch_quiet | done].
  - destruct (_ && _); injection Hs as <- <-;
      (split; [by apply stretch_quiet | done]).
  - injection Hs as <- <-. split; [by apply stretch_quiet | done].
  - destruct (s =? syscall.SIGHUP); injection Hs as <- <-.
    + split; [by apply stretch_quiet | done].
    + split; [|done]. simpl.
      change (stretch (plugins st) live
        ([Infof "Received signal %v, shutting down." [VSignal s]] ++
         map PluginStop (plugins st) ++ deferred st) (plugins st)).
      apply stretch_quiet_app; [done|].
      apply stretch_stop_pass; [done|]. apply stretch_quiet; [exact Hq|].
      set_solver.
Qed.

Lemma step_stretch fail mig st i st' tr live :
  step fail mig st i = Some (st', tr) →
  quiet_defers st → live ⊆ addrs (plugins st) →
  stretch (plugins st) live tr (plugins st') ∧ quiet_defers st'.
Proof.
  intros Hs Hq Hl. unfold step in Hs.
  destruct (pc st), i; try discriminate.
  - injection Hs as Hs.
    generalize (entry_block_stretch fail st nvret watcherErr live Hq Hl).
    by rewrite Hs.
  - injection Hs as Hs.
    generalize (restart_block_stretch mig st strategyErr got live Hq Hl).
    by rewrite Hs.
  - by eapply events_block_stretch.
Qed.

(** The observers and the state a run reaches stay in step. *)
Lemma run_stretch fail mig ins : ∀ st live,
  quiet_defers st → live ⊆ addrs (plugins st) →
  stretch (plugins st) live (run fail mig st ins).2
          (plugins (run fail mig st ins).1)
  ∧ quiet_defers (run fail mig st ins).1.
Proof.
  induction ins as [|i ins IH]; intros st live Hq Hl; simpl.
  - split; [by apply stretch_quiet | done].
  - destruct (step fail mig st i) as [[st' tr]|] eqn:Hs.
    + destruct (step_stretch _ _ _ _ _ _ _ Hs Hq Hl) as ((H1 & H2 & H3) & Hq').
      destruct (IH st' (live_from live tr) Hq' H3) as ((K1 & K2 & K3) & Kq).
      destruct (run fail mig st' ins) as [st'' tr']. simpl in *.
      split; [|done]. unfold stretch.
      rewrite one_set_app, set_from_app, live_from_app, H2. auto.
    + split; [by apply stretch_quiet | done].
Qed.

(** Every run keeps one PluginSet live at a time. *)
Lemma run_one_set fail mig ins st live :
  quiet_defers st → live ⊆ addrs (plugins st) →
  one_set (plugins st) live (run fail mig st ins).2.
Proof. intros Hq Hl. by destruct (run_stretch fail mig ins st live Hq Hl) as [[? _] _]. Qed.

(** A property of states and traces that every step keeps holds along
    every run. *)
Lemma run_invariant fail mig (I : State → list Action → Prop) :
  (∀ st tr i st' tr',
     I st tr → step fail mig st i = Some (st', tr') → I st' (tr ++ tr')) →
  ∀ ins st tr, I st tr →
    I (run fail mig st ins).1 (tr ++ (run fail mig st ins).2).
Proof.
  intros Hstep. induction ins as [|i ins IH]; intros st tr HI; simpl.
  - by rewrite app_nil_r.
  - destruct (step fail mig st i) as [[st' tr']|] eqn:Hs.
    + specialize (IH st' (tr ++ tr') (Hstep _ _ _ _ _ HI Hs)).
      destruct (run fail mig st' ins) as [st'' tr'']. simpl in *.
      by rewrite app_assoc.
    + by rewrite app_nil_r.
Qed.

Lemma built_app t1 t2 : built (t1 ++ t2) = built t1 ++ built t2.
Proof.
  induction t1 as [|a t1 IH]; [done|].
  destruct a; simpl; rewrite ?IH; try done. by rewrite app_assoc.
Qed.

Lemma built_quiet tr : forallb quiet tr = true → built tr = [].
Proof.
  induction tr as [|a tr IH]; [done|]. simpl. intros [Ha Ht]%andb_prop.
  destruct a; try discriminate; by apply IH.
Qed.

Lemma built_stop_pass ps : built (map PluginStop ps) = [].
Proof. induction ps as [|p ps IH]; [done | exact IH]. Qed.

Lemma built_start_plugins ps : ∀ n, built (start_plugins ps n).2 = [].
Proof.
  induction ps as [|p ps IH]; intros n; simpl; [done|].
  destruct (length (Devices p) =? 0)%nat; [apply IH|].
  destruct (Start p); [done|]. specialize (IH (S n)).
  by destruct (start_plugins ps (S n)) as [[n' f] tr].
Qed.

Lemma entry_block_trace_quiet fail st nvret werr :
  quiet_defers st → forallb quiet (entry_block fail st nvret werr).2 = true.
Proof.
  intros Hq. unfold entry_block, quiet_defers in *.
  destruct (negb (nvret =? nvml.SUCCESS)); [destruct fail | destruct werr];
    simpl; first [exact Hq | reflexivity].
Qed.

Lemma balanced_step fail mig st tr i st' tr' :
  balanced st tr → step fail mig st i = Some (st', tr') →
  balanced st' (tr ++ tr').
Proof.
  intros (Hq & He & Hb) Hs.
  assert (H0 : (∅ : gset nat) ⊆ addrs (plugins st)) by set_solver.
  destruct (step_stretch _ _ _ _ _ _ _ Hs Hq H0) as [_ Hq'].
  split; [done|]. unfold step in Hs. unfold owed in *.
  rewrite stop_calls_app, built_app.
  destruct (pc st) eqn:Hpc; destruct i as [nvret werr | serr got | c];
    try discriminate.
  - injection Hs as Hs.
    pose proof (entry_block_trace_quiet fail st nvret werr Hq) as Ht.
    pose proof (entry_block_plugins fail st nvret werr) as Hp.
    rewrite Hs in Ht, Hp. simpl in Ht, Hp.
    rewrite (stop_calls_quiet _ Ht), (built_quiet _ Ht), Hp, (He eq_refl).
    rewrite !app_nil_r in *. rewrite <- Hb.
    split; [done|]. by destruct (pc st'); rewrite app_nil_r.
  - injection Hs as Hs. destruct serr as [e|].
    + unfold restart_block, ret in Hs. injection Hs as <- <-. simpl.
      split; [done|].
      rewrite !stop_calls_app, !built_app, stop_calls_stop_pass,
        built_stop_pass, (stop_calls_quiet _ Hq), (built_quiet _ Hq). simpl.
      by rewrite !app_nil_r.
    + rewrite restart_block_unfold in Hs.
      pose proof (stop_calls_start_plugins got 0) as H1.
      pose proof (built_start_plugins got 0) as H2.
      destruct (start_plugins got 0) as [[n failed] t]. simpl in H1, H2.
      injection Hs as <- <-. simpl. split; [done|].
      rewrite !stop_calls_app, !built_app, stop_calls_stop_pass,
        built_stop_pass. simpl.
      rewrite stop_calls_app, built_app, H1, H2.
      replace (stop_calls (if failed then [] else
                 if (n =? 0)%nat then [Info msg_no_devices] else []))
        with (@nil NvidiaDevicePlugin)
        by (by destruct failed; [|destruct (n =? 0)%nat]).
      replace (built (if failed then [] else
                 if (n =? 0)%nat then [Info msg_no_devices] else []))
        with (@nil NvidiaDevicePlugin)
        by (by destruct failed; [|destruct (n =? 0)%nat]).
      simpl. rewrite !app_nil_r. by rewrite Hb.
  - unfold events_block in Hs. destruct c as [|event|err|s].
    + destruct (pluginStartError st); [|discriminate].
      injection Hs as <- <-. simpl. split; [done|]. by rewrite !app_nil_r.
    + destruct (_ && _); injection Hs as <- <-; simpl;
        (split; [try done; congruence|]); rewrite ?Hpc, ?app_nil_r; done.
    + injection Hs as <- <-. simpl. split; [congruence|].
      by rewrite Hpc, !app_nil_r.
    + destruct (s =? syscall.SIGHUP); injection Hs as <- <-; simpl.
      * split; [done|]. by rewrite !app_nil_r.
      * split; [done|].
        rewrite stop_calls_app, built_app, stop_calls_stop_pass,
          built_stop_pass, (stop_calls_quiet _ Hq), (built_quiet _ Hq).
        by rewrite !app_nil_r.
Qed.

(** ** Stopped before replaced *)

Lemma stopped_before_app t1 : ∀ pre t2,
  stopped_before pre (t1 ++ t2) ↔
  stopped_before pre t1 ∧ stopped_before (pre ++ t1) t2.
Proof.
  induction t1 as [|a t1 IH]; intros pre t2.
  - simpl. rewrite app_nil_r. tauto.
  - cbn [app stopped_before]. rewrite IH, <- app_assoc. simpl. tauto.
Qed.

Lemma stopped_before_inert tr : ∀ pre,
  forallb (λ a, negb (builds_or_starts a)) tr = true → stopped_before pre tr.
Proof.
  induction tr as [|a tr IH]; intros pre; [done|]. simpl.
  intros [Ha Ht]%andb_prop. split; [by destruct a | by apply IH].
Qed.

Lemma quiet_inert tr :
  forallb quiet tr = true →
  forallb (λ a, negb (builds_or_starts a)) tr = true.
Proof.
  induction tr as [|a tr IH]; [done|]. simpl. intros [Ha Ht]%andb_prop.
  rewrite (IH Ht). by destruct a.
Qed.

Lemma stop_pass_inert ps :
  forallb (λ a, negb (builds_or_starts a)) (map PluginStop ps) = true.
Proof. induction ps as [|p ps IH]; [done | exact IH]. Qed.

Lemma current_set_app t1 t2 :
  current_set (t1 ++ t2) = set_from (current_set t1) t2.
Proof. apply set_from_app. Qed.

Lemma start_plugins_stopped_before ps : ∀ n pre,
  built pre = stop_calls pre ++ current_set pre →
  (∀ p, p ∈ ps → p ∈ current_set pre) →
  stopped_before pre (start_plugins ps n).2.
Proof.
  induction ps as [|p ps IH]; intros n pre Hb Hin; simpl; [done|].
  assert (Hps : ∀ q, q ∈ ps → q ∈ current_set pre)
    by (intros q Hq; apply Hin; set_solver).
  destruct (length (Devices p) =? 0)%nat; [by apply IH|].
  assert (Hp : p ∈ current_set pre) by (apply Hin; set_solver).
  destruct (Start p).
  - simpl. tauto.
  - specialize (IH (S n) (pre ++ [PluginStart p])).
    rewrite built_app, stop_calls_app, current_set_app in IH. simpl in IH.
    rewrite !app_nil_r in IH. specialize (IH Hb Hps).
    destruct (start_plugins ps (S n)) as [[n' f] tr]. simpl in *. tauto.
Qed.

Lemma restart_block_stopped_before mig st tr got :
  pc st = restart → balanced st tr → plugins st = current_set tr →
  stopped_before tr (restart_block mig st None got).2.
Proof.
  intros Hpc (_ & _ & Hb) Hcur. unfold owed in Hb. rewrite Hpc in Hb.
  rewrite restart_block_unfold.
  pose proof (start_plugins_stopped_before got 0
    (tr ++ map PluginStop (plugins st) ++
     [Info "Retreiving plugins."; NewMigStrategy mig; GetPlugins got;
      MakePluginStartError])) as Hs.
  destruct (start_plugins got 0) as [[n failed] t]. simpl in Hs |- *.
  apply stopped_before_app. split; [apply stopped_before_inert, stop_pass_inert|].
  assert (Hpre : stop_calls (tr ++ map PluginStop (plugins st)) =
                 built (tr ++ map PluginStop (plugins st))).
  { by rewrite stop_calls_app, built_app, stop_calls_stop_pass,
      built_stop_pass, app_nil_r. }
  cbn [stopped_before previous_stopped].
  rewrite <- !app_assoc. cbn [app].
  split; [exact I|]. split; [exact I|]. split.
  { rewrite !stop_calls_app, !built_app. simpl. rewrite !app_nil_r.
    by rewrite stop_calls_app, built_app in Hpre. }
  split; [exact I|].
  apply stopped_before_app. split.
  - apply Hs.
    + rewrite !built_app, !stop_calls_app, !current_set_app,
        stop_calls_stop_pass, built_stop_pass. simpl.
      rewrite !app_nil_r, set_from_app, stop_pass_set. simpl. by rewrite Hb.
    + intros p Hp. by rewrite current_set_app, set_from_app, stop_pass_set.
  - apply stopped_before_inert.
    by destruct failed; [|destruct (n =? 0)%nat].
Qed.

Lemma replaced_in_turn_step fail mig st tr i st' tr' :
  replaced_in_turn st tr → step fail mig st i = Some (st', tr') →
  replaced_in_turn st' (tr ++ tr').
Proof.
  intros (Hbal & Hcur & Hsb) Hs.
  pose proof (balanced_step _ _ _ _ _ _ _ Hbal Hs) as Hbal'.
  pose proof Hbal as (Hq & _ & _).
  assert (H0 : (∅ : gset nat) ⊆ addrs (plugins st)) by set_solver.
  destruct (step_stretch _ _ _ _ _ _ _ Hs Hq H0) as [(_ & Hset & _) _].
  split; [done|]. split; [by rewrite current_set_app, <- Hcur|].
  apply stopped_before_app. split; [done|]. simpl.
  unfold step in Hs.
  destruct (pc st) eqn:Hpc; destruct i as [nvret werr | serr got | c];
    try discriminate.
  - injection Hs as Hs. apply stopped_before_inert, quiet_inert.
    pose proof (entry_block_trace_quiet fail st nvret werr Hq) as Ht.
    by rewrite Hs in Ht.
  - injection Hs as Hs. destruct serr as [e|].
    + unfold restart_block, ret in Hs. injection Hs as <- <-.
      apply stopped_before_inert.
      by rewrite !forallb_app, stop_pass_inert, (quiet_inert _ Hq).
    + pose proof (restart_block_stopped_before mig st tr got Hpc
                    Hbal Hcur) as H.
      by rewrite Hs in H.
  - unfold events_block in Hs. destruct c as [|event|err|s].
    + destruct (pluginStartError st); [|discriminate]. by injection Hs as <- <-.
    + by destruct (_ && _); injection Hs as <- <-.
    + by injection Hs as <- <-.
    + destruct (s =? syscall.SIGHUP); injection Hs as <- <-; [done|].
      apply stopped_before_inert. simpl.
      by rewrite forallb_app, stop_pass_inert, (quiet_inert _ Hq).
Qed.

Lemma start_replaced_in_turn fail mig ins :
  replaced_in_turn (start fail mig ins).1 (start fail mig ins).2.
Proof.
  assert (H0 : replaced_in_turn initial []) by done.
  exact (run_invariant fail mig replaced_in_turn
           (replaced_in_turn_step fail mig) ins initial [] H0).
Qed.

(** ** Two runs *)

(** Three endpoints owning 2, 0 and 1 devices, then SIGTERM: the second
    endpoint is not started, all three are stopped, and the deferred
    calls run in reverse order of their [defer]. *)
Example drain_after_one_cycle :
  start true "none" (one_cycle ++ [AtEvents (RecvSignal syscall.SIGTERM)]) =
  ({| pc := returned None; plugins := [gpu_a; no_gpu; gpu_b]; started := 2;
      pluginStartError := false; deferred := [] |},
   [GoPprofServer; Info "Loading NVML"; NvmlInit; Info "Starting FS watcher.";
    NewFSWatcher "/var/lib/kubelet/device-plugins/";
    Info "Starting OS watcher."; NewOSWatcher [1; 2; 15; 3];
    LoadNvidiaConfig; NewDeviceCache; CacheStart; NewDeviceRegister;
    RegisterStart; Info "Retreiving plugins."; NewMigStrategy "none";
    GetPlugins [gpu_a; no_gpu; gpu_b]; MakePluginStartError;
    PluginStart gpu_a; PluginStart gpu_b;
    Infof "Received signal %v, shutting down." [VSignal 15];
    PluginStop gpu_a; PluginStop no_gpu; PluginStop gpu_b;
    RegisterStop; CacheStop; WatcherClose; NvmlShutdown;
    Info "Shutdown of NVML returned:"]).
Proof. reflexivity. Qed.

(** A failing [Start()], the closed channel taken, and the next cycle. *)
Example retry_after_failure :
  let r := start true "none"
    [AtEntry nvml.SUCCESS None; AtRestart None [gpu_down; gpu_b];
     AtEvents RecvPluginStartError; AtRestart None [gpu_a; gpu_b]] in
  drop 12 r.2 =
    [Info "Retreiving plugins."; NewMigStrategy "none";
     GetPlugins [gpu_down; gpu_b]; MakePluginStartError;
     PluginStart gpu_down; Info msg_retry; Info msg_prereq; Info msg_runtime;
     ClosePluginStartError;
     PluginStop gpu_down; PluginStop gpu_b;
     Info "Retreiving plugins."; NewMigStrategy "none";
     GetPlugins [gpu_a; gpu_b]; MakePluginStartError;
     PluginStart gpu_a; PluginStart gpu_b]
  ∧ started r.1 = 2%nat ∧ pluginStartError r.1 = false.
Proof. by vm_compute. Qed.

(** While the channel is open the select cannot take its first case. *)
Example open_channel_not_ready :
  step true "none" (start true "none" one_cycle).1
       (AtEvents RecvPluginStartError) = None.
Proof. reflexivity. Qed.

(** ** The claims *)

(** C1.  In every restart cycle [Stop()] has been called on every
    endpoint of the previous cycle's PluginSet before the new set is built
    or any endpoint is started; on the first cycle no [Stop()] is called at
    all; and along every run of [start()], at each point only endpoints of
    the set built last are live, and none is live when a set is built.
    The endpoints [start()] holds are always those of the set built last;
    when a set is built, every endpoint built before has been stopped, and
    when an endpoint is started, it is of the set built last and every
    endpoint of the sets built before that one has been stopped. *)
Theorem stop_pass_before_rebuild (fail : bool) (mig : string) :
  (∀ st serr got t1 a t2 p,
      (restart_block mig st serr got).2 = t1 ++ a :: t2 →
      builds_or_starts a = true →
      p ∈ plugins st → p ∈ stop_calls t1)
  ∧ (∀ nvret werr serr got,
      stop_calls (start fail mig
                    [AtEntry nvret werr; AtRestart serr got]).2 = [])
  ∧ (∀ ins t1 t2,
      (start fail mig ins).2 = t1 ++ t2 →
      live_after t1 ⊆ addrs (current_set t1)
      ∧ ∀ ps t3, t2 = GetPlugins ps :: t3 → live_after t1 = ∅)
  ∧ (∀ ins, plugins (start fail mig ins).1 =
            current_set (start fail mig ins).2)
  ∧ (∀ ins t1 a t2,
      (start fail mig ins).2 = t1 ++ a :: t2 → previous_stopped t1 a).
Proof.
  split; [|split; [|split; [|split]]].
  - intros st serr got t1 a t2 p Htr Ha Hp.
    destruct (restart_block_stops_first mig st serr got) as [rest Hrest].
    rewrite Hrest in Htr. symmetry in Htr.
    apply app_eq_app in Htr as [l [[-> _]|[Hstops Hl]]].
    + rewrite stop_calls_app, stop_calls_stop_pass. set_solver.
    + destruct l as [|b l].
      * rewrite app_nil_r in Hstops. subst t1.
        by rewrite stop_calls_stop_pass.
      * injection Hl as <- _.
        assert (Hb : a ∈ map PluginStop (plugins st)).
        { rewrite Hstops. set_solver. }
        apply list_elem_of_fmap in Hb as (q & -> & _). discriminate.
  - intros nvret werr serr got. unfold start. simpl.
    destruct (entry_block_quiet fail nvret werr) as [Hq Hd].
    pose proof (entry_block_plugins fail initial nvret werr) as Hp.
    destruct (entry_block fail initial nvret werr) as [st tr]. simpl in *.
    unfold step. destruct (pc st);
      rewrite ?app_nil_r; try by apply stop_calls_quiet.
    destruct (restart_block mig st serr got) as [st' tr'] eqn:E.
    simpl. rewrite app_nil_r, stop_calls_app, (stop_calls_quiet _ Hq). simpl.
    replace tr' with (restart_block mig st serr got).2 by (by rewrite E).
    clear E. destruct serr as [err|].
    + unfold restart_block. simpl. rewrite Hp. simpl.
      by apply stop_calls_quiet.
    + destruct (restart_block_trace mig st got) as (tail & Htail & ->).
      rewrite Hp. simpl.
      by rewrite stop_calls_app, stop_calls_start_plugins, stop_calls_quiet.
  - intros ins t1 t2 Htr. unfold start in Htr.
    assert (H0 : (∅ : gset nat) ⊆ addrs (plugins initial)) by set_solver.
    pose proof (run_one_set fail mig ins initial ∅ eq_refl H0) as Hone.
    rewrite Htr in Hone. apply one_set_prefix in Hone as [Hlive Hrest]; [|done].
    split; [exact Hlive|]. intros ps t3 ->. by destruct Hrest as [? _].
  - intros ins. by destruct (start_replaced_in_turn fail mig ins) as (_ & ? & _).
  - intros ins t1 a t2 Htr.
    destruct (start_replaced_in_turn fail mig ins) as (_ & _ & Hsb).
    rewrite Htr in Hsb. by apply stopped_before_app in Hsb as [_ [? _]].
Qed.

(** C2.  When [Start()] fails for an endpoint of the cycle's PluginSet,
    the [Start()] calls of the cycle are those of the device-owning
    endpoints up to and including the failing one, so none after it; the
    plugin-failure channel is closed exactly once and [start()] is at
    [events:] with the channel closed; no turn of the event loop starts
    an endpoint; taking the closed channel puts [start()] at [restart:]
    with the same set; and the cycle run from there stops that whole set
    and starts again from the first endpoint of the set it builds. *)
Theorem start_failure_aborts_cycle (fail : bool) (mig : string)
    (st : State) (pre : list NvidiaDevicePlugin) (p : NvidiaDevicePlugin)
    (post : list NvidiaDevicePlugin) :
  pc st = restart → quiet_defers st →
  forallb passes pre = true → has_devices p = true → Start p ≠ None →
  let got := pre ++ p :: post in
  let waiting l :=
    {| pc := l; plugins := got;
       started := length (List.filter has_devices pre);
       pluginStartError := true; deferred := deferred st |} in
  ∃ tr,
    step fail mig st (AtRestart None got) = Some (waiting events, tr)
    ∧ start_calls tr = List.filter has_devices pre ++ [p]
    ∧ failure_triggers tr = 1%nat
    ∧ (∀ c st'' tr'',
         step fail mig (waiting events) (AtEvents c) = Some (st'', tr'') →
         start_calls tr'' = [])
    ∧ step fail mig (waiting events) (AtEvents RecvPluginStartError) =
      Some (waiting restart, [])
    ∧ (∀ got', forallb passes got' = true →
         let r := run fail mig (waiting events)
                    [AtEvents RecvPluginStartError; AtRestart None got'] in
         pc r.1 = events ∧ plugins r.1 = got'
         ∧ stop_calls r.2 = got
         ∧ start_calls r.2 = List.filter has_devices got').
Proof.
  intros Hpc Hq Hpre Hp Hfail got waiting. subst got.
  unfold step at 1. rewrite Hpc, restart_block_unfold.
  rewrite (start_plugins_abort pre p post 0 Hpre Hp Hfail). simpl.
  eexists. split; [reflexivity|]. split; [by trace|]. split; [by trace|].
  split; [|split].
  - intros c st'' tr'' Hs. unfold step in Hs. simpl in Hs.
    by eapply (events_block_no_start (waiting events)); [exact Hq|].
  - reflexivity.
  - intros got' Hall. cbn [run]. unfold step, waiting. simpl.
    rewrite restart_block_unfold, (start_plugins_all got' 0 Hall). simpl.
    split; [done|]. split; [done|].
    by destruct (length (List.filter has_devices got') =? 0)%nat; trace.
Qed.



(** C4.  When NVML's [Init()] does not return [SUCCESS]: with the
    fail-on-init-error flag set, [start()] returns the error and the
    caller exits through [klog.Fatal]; without it, [start()] is parked in
    [select {}] whatever happens next, having called neither the strategy
    resolver nor the constructors of the two watchers. *)
Theorem nvml_init_failure (fail : bool) (mig : string) (nvret : Z)
    (werr : option string) (ins : list Input) :
  nvret ≠ nvml.SUCCESS →
  let r := start fail mig (AtEntry nvret werr :: ins) in
  let err := Errorf "failed to initialize NVML: %v" (VReturn nvret) in
  (fail = true →
     pc r.1 = returned (Some err) ∧ Run (Some err) = Fatal err)
  ∧ (fail = false →
     pc r.1 = blocked ∧ resolver_calls r.2 = 0%nat ∧ watcher_calls r.2 = 0%nat
     ∧ ∀ i, step fail mig r.1 i = None).
Proof.
  intros Hne r err. subst r. unfold start. simpl. unfold entry_block.
  apply Z.eqb_neq in Hne. rewrite Hne. simpl.
  split; intros ->; unfold ret, goto; simpl.
  - by rewrite halted_run.
  - rewrite halted_run by done. simpl. repeat split.
Qed.

(** C5.  In a state a run has reached at [events:], a signal other than
    SIGHUP makes [start()] call [Stop()] once on each endpoint of the
    PluginSet, after which no endpoint is live, and return [nil]: the
    caller exits with status zero and no further event is taken. *)
Theorem fatal_signal_drains (fail : bool) (mig : string) (ins : list Input)
    (s : Z) :
  let r := start fail mig ins in
  pc r.1 = events → s ≠ syscall.SIGHUP →
  ∃ st' tr,
    step fail mig r.1 (AtEvents (RecvSignal s)) = Some (st', tr)
    ∧ pc st' = returned None ∧ Run None = ExitZero
    ∧ stop_calls tr = plugins r.1
    ∧ live_after (r.2 ++ tr) = ∅
    ∧ ∀ ins', run fail mig st' ins' = (st', []).
Proof.
  intros r Hpc Hs. subst r. unfold start in *.
  assert (H0 : (∅ : gset nat) ⊆ addrs (plugins initial)) by set_solver.
  destruct (run_stretch fail mig ins initial ∅ eq_refl H0)
    as ((_ & _ & Hlive) & Hq).
  destruct (run fail mig initial ins) as [st tr0]. simpl in *.
  unfold step. rewrite Hpc. simpl.
  apply Z.eqb_neq in Hs. rewrite Hs.
  eexists _, _. split; [reflexivity|]. simpl.
  split; [done|]. split; [done|]. split; [|split].
  - rewrite stop_calls_app, stop_calls_stop_pass, stop_calls_quiet; [|exact Hq].
    by rewrite app_nil_r.
  - unfold live_after. rewrite live_from_app.
    change (live_from (live_from ∅ tr0)
      ([Infof "Received signal %v, shutting down." [VSignal s]] ++
       map PluginStop (plugins st) ++ deferred st) = ∅).
    rewrite !live_from_app. simpl.
    rewrite stop_pass_clears by done.
    by destruct (quiet_trace (plugins st) ∅ (deferred st) Hq) as (_ & _ & ->).
  - intros ins'. by apply halted_run.
Qed.

(** C6.  At [events:], SIGHUP and a Create event for the kubelet socket
    each log one line and put [start()] at [restart:] with everything else
    as it was, so that whatever follows is the same for both: the same
    state is reached and, past that first line, the same calls are made;
    the cycle that follows opens with the stop pass over the current
    PluginSet, then the resolution, then the same remaining calls. *)
Theorem reload_equals_agent_restart (fail : bool) (mig : string) (st : State)
    (ins : list Input) :
  pc st = events →
  let hup := AtEvents (RecvSignal syscall.SIGHUP) in
  let created := AtEvents (RecvEvent
    {| fsnotify.Name := pluginapi.KubeletSocket;
       fsnotify.Op := fsnotify.Create |}) in
  let restarting :=
    {| pc := restart; plugins := plugins st; started := started st;
       pluginStartError := pluginStartError st; deferred := deferred st |} in
  step fail mig st hup =
    Some (restarting, [Info "Received SIGHUP, restarting."])
  ∧ step fail mig st created =
    Some (restarting,
          [Infof "inotify: %s created, restarting."
                 [VString pluginapi.KubeletSocket]])
  ∧ (run fail mig st (hup :: ins)).1 = (run fail mig st (created :: ins)).1
  ∧ drop 1 (run fail mig st (hup :: ins)).2 =
    drop 1 (run fail mig st (created :: ins)).2
  ∧ ∀ serr got ins', ∃ rest,
      (run fail mig st (hup :: AtRestart serr got :: ins')).2 =
        Info "Received SIGHUP, restarting." ::
        map PluginStop (plugins st) ++
        Info "Retreiving plugins." :: NewMigStrategy mig :: rest
      ∧ (run fail mig st (created :: AtRestart serr got :: ins')).2 =
        Infof "inotify: %s created, restarting."
              [VString pluginapi.KubeletSocket] ::
        map PluginStop (plugins st) ++
        Info "Retreiving plugins." :: NewMigStrategy mig :: rest.
Proof.
  intros Hpc hup created restarting.
  assert (H1 : step fail mig st hup =
    Some (restarting, [Info "Received SIGHUP, restarting."])).
  { unfold step. by rewrite Hpc. }
  assert (H2 : step fail mig st created =
    Some (restarting,
          [Infof "inotify: %s created, restarting."
                 [VString pluginapi.KubeletSocket]])).
  { unfold step. by rewrite Hpc. }
  split; [done|]. split; [done|]. split; [|split].
  - cbn [run]. rewrite H1, H2.
    by destruct (run fail mig restarting ins) as [st' tr'].
  - cbn [run]. rewrite H1, H2.
    by destruct (run fail mig restarting ins) as [st' tr'].
  - intros serr got ins'. cbn [run]. rewrite H1, H2.
    change (step fail mig restarting (AtRestart serr got))
      with (Some (restart_block mig restarting serr got)).
    destruct (restart_block_opening mig restarting serr got) as [rest Hrest].
    destruct (restart_block mig restarting serr got) as [st1 tr1].
    simpl in Hrest. subst tr1.
    destruct (run fail mig st1 ins') as [st2 tr2].
    exists (rest ++ tr2). simpl. by rewrite <- !app_assoc.
Qed.

(** C7.  At [events:], a filesystem event whose name is not the kubelet
    socket path changes nothing and calls nothing, and a watcher error
    logs one line and changes nothing; so after any sequence of such
    events [start()] is in the state it was in, still at [events:], having
    only logged. *)
Theorem other_paths_never_restart (fail : bool) (mig : string) (st : State) :
  pc st = events →
  (∀ event, fsnotify.Name event ≠ pluginapi.KubeletSocket →
     step fail mig st (AtEvents (RecvEvent event)) = Some (st, []))
  ∧ (∀ err, step fail mig st (AtEvents (RecvError err)) =
            Some (st, [Infof "inotify: %s" [VError err]]))
  ∧ (∀ ins, forallb ignored ins = true →
       (run fail mig st ins).1 = st
       ∧ forallb is_log (run fail mig st ins).2 = true).
Proof.
  intros Hpc. split; [|split].
  - intros event Hne. unfold step. rewrite Hpc. simpl.
    apply String.eqb_neq in Hne. by rewrite Hne.
  - intros err. unfold step. by rewrite Hpc.
  - intros ins. induction ins as [|i ins IH]; [done|]. simpl.
    intros [Hi Hins]%andb_prop.
    destruct (ignored_step fail mig st i Hpc Hi) as (tr & -> & Htr).
    destruct (IH Hins) as [IH1 IH2].
    destruct (run fail mig st ins) as [st' tr']. simpl in *.
    split; [done|]. rewrite forallb_app. by rewrite Htr, IH2.
Qed.

(** C8.  In every cycle, [Start()] is called only on endpoints that own a
    device, and the started-count is the number of [Start()] calls that
    succeeded; for a PluginSet of three endpoints owning 2, 0 and 1
    devices, with the first and third starting, the [Start()] calls are
    those of the first and the third, and the started-count is 2. *)
Theorem empty_endpoints_skipped (mig : string) (st : State) :
  (∀ got,
     let r := restart_block mig st None got in
     (∀ p, p ∈ start_calls r.2 → Devices p ≠ [])
     ∧ started r.1 =
       length (List.filter (λ p, bool_decide (Start p = None))
                 (start_calls r.2)))
  ∧ (∀ e1 e2 e3,
     length (Devices e1) = 2%nat → length (Devices e2) = 0%nat →
     length (Devices e3) = 1%nat → Start e1 = None → Start e3 = None →
     let r := restart_block mig st None [e1; e2; e3] in
     start_calls r.2 = [e1; e3] ∧ started r.1 = 2%nat).
Proof.
  split.
  - intros got r. subst r. rewrite restart_block_unfold.
    destruct (start_plugins_calls got 0) as [H1 H2].
    destruct (start_plugins got 0) as [[n failed] tr']. simpl in *.
    assert (Hcalls : start_calls
      (map PluginStop (plugins st) ++
       Info "Retreiving plugins." :: NewMigStrategy mig ::
       GetPlugins got :: MakePluginStartError ::
       tr' ++ (if failed then []
               else if (n =? 0)%nat then [Info msg_no_devices] else []))
      = start_calls tr').
    { rewrite start_calls_app, start_calls_stop_pass. simpl.
      rewrite start_calls_app.
      by destruct failed; [|destruct (n =? 0)%nat]; rewrite app_nil_r. }
    rewrite Hcalls. by split.
  - intros e1 e2 e3 H1 H2 H3 S1 S3 r. subst r.
    rewrite restart_block_unfold. simpl.
    rewrite H1, H2, H3, S1, S3. simpl.
    by rewrite start_calls_app, start_calls_stop_pass.
Qed.

(** C9.  In any cycle, when [NewMigStrategy] fails, [start()] returns the
    wrapped error right after the call: no PluginSet is built and no
    endpoint started, the caller exits through [klog.Fatal], and nothing
    runs after the return, so the resolution is not tried again. *)
Theorem resolver_failure_is_fatal (fail : bool) (mig : string) (st : State)
    (e : string) (got : list NvidiaDevicePlugin) :
  pc st = restart →
  let err := Errorf "error creating MIG strategy: %v" (VError e) in
  ∃ st',
    step fail mig st (AtRestart (Some e) got) =
      Some (st', map PluginStop (plugins st) ++
                 [Info "Retreiving plugins."; NewMigStrategy mig] ++
                 deferred st)
    ∧ pc st' = returned (Some err)
    ∧ Run (Some err) = Fatal err ∧ nonzero (Run (Some err)) = true
    ∧ ∀ ins, run fail mig st' ins = (st', []).
Proof.
  intros Hpc err. unfold step. rewrite Hpc. unfold restart_block, ret.
  eexists. split; [by rewrite <- app_assoc|]. simpl.
  repeat split. intros ins. by apply halted_run.
Qed.

(** C10.  At [events:], an event for the kubelet socket path restarts
    exactly when the Create bit of its operation mask is set: [start()]
    logs the line and is at [restart:] with everything else as it was,
    and the cycle that follows opens with the stop pass and the
    resolution; this whatever other bits come with the Create bit, as in
    Create|Write, which is not the Create operation; and an event for
    that path without the bit is ignored. *)
Theorem create_bit_inclusion (fail : bool) (mig : string) (st : State)
    (op : Z) :
  pc st = events →
  let on_socket o := AtEvents (RecvEvent
    {| fsnotify.Name := pluginapi.KubeletSocket; fsnotify.Op := o |}) in
  let line := Infof "inotify: %s created, restarting."
                    [VString pluginapi.KubeletSocket] in
  let restarts o :=
    step fail mig st (on_socket o) =
      Some ({| pc := restart; plugins := plugins st; started := started st;
               pluginStartError := pluginStartError st;
               deferred := deferred st |}, [line])
    ∧ ∀ serr got ins, ∃ rest,
        (run fail mig st (on_socket o :: AtRestart serr got :: ins)).2 =
        line :: map PluginStop (plugins st) ++
        Info "Retreiving plugins." :: NewMigStrategy mig :: rest in
  (Z.testbit op 0 = true → restarts op)
  ∧ restarts (Z.lor fsnotify.Create op)
  ∧ (Z.lor fsnotify.Create fsnotify.Write ≠ fsnotify.Create
     ∧ restarts (Z.lor fsnotify.Create fsnotify.Write))
  ∧ (Z.testbit op 0 = false → step fail mig st (on_socket op) = Some (st, [])).
Proof.
  intros Hpc on_socket line restarts.
  assert (Hbit : ∀ o, Z.testbit o 0 = true → restarts o).
  { intros o Ho. unfold restarts.
    assert (Hs : step fail mig st (on_socket o) =
      Some ({| pc := restart; plugins := plugins st; started := started st;
               pluginStartError := pluginStartError st;
               deferred := deferred st |}, [line])).
    { unfold step, on_socket. rewrite Hpc. unfold events_block.
      cbn [fsnotify.Name fsnotify.Op].
      by rewrite land_create, String.eqb_refl, Ho. }
    split; [done|]. intros serr got ins. cbn [run]. rewrite Hs.
    set (st0 := {| pc := restart; plugins := plugins st |}).
    change (step fail mig st0 (AtRestart serr got))
      with (Some (restart_block mig st0 serr got)).
    destruct (restart_block_opening mig st0 serr got) as [rest Hrest].
    destruct (restart_block mig st0 serr got) as [st1 tr1].
    simpl in Hrest. subst tr1.
    destruct (run fail mig st1 ins) as [st2 tr2].
    exists (rest ++ tr2). simpl. by rewrite <- !app_assoc. }
  assert (Hlor : ∀ o, Z.testbit (Z.lor fsnotify.Create o) 0 = true).
  { intros o. by rewrite Z.lor_spec. }
  split; [exact (Hbit op)|]. split; [by apply Hbit|].
  split; [split; [done | by apply Hbit]|].
  intros Ho. unfold step, on_socket. rewrite Hpc. unfold events_block.
  cbn [fsnotify.Name fsnotify.Op].
  by rewrite land_create, String.eqb_refl, Ho.
Qed.

(** ** The claims on concrete inputs *)

(** Two endpoints are stopped before the set of the second cycle is built,
    and nothing is live when it is. *)
Lemma stop_pass_before_rebuild_witness :
  no_gpu ∈ stop_calls
    (take 4 (restart_block "none" (at_label restart [gpu_a; no_gpu] 1 false)
               None [gpu_b]).2)
  ∧ live_after (take 22 (start true "none" two_cycles).2) = ∅
  ∧ stop_calls (take 22 (start true "none" two_cycles).2) =
    built (take 22 (start true "none" two_cycles).2).
Proof.
  destruct (stop_pass_before_rebuild true "none") as (H1 & _ & H3 & _ & H5).
  split; [|split].
  - apply (H1 (at_label restart [gpu_a; no_gpu] 1 false) None [gpu_b]
              _ (GetPlugins [gpu_b])
              [MakePluginStartError; PluginStart gpu_b] no_gpu).
    + reflexivity.
    + reflexivity.
    + apply list_elem_of_further, list_elem_of_here.
  - destruct (H3 two_cycles (take 22 (start true "none" two_cycles).2)
                 (drop 22 (start true "none" two_cycles).2) eq_refl)
      as [_ H].
    exact (H [gpu_b] [MakePluginStartError; PluginStart gpu_b] eq_refl).
  - exact (H5 two_cycles (take 22 (start true "none" two_cycles).2)
              (GetPlugins [gpu_b]) [MakePluginStartError; PluginStart gpu_b]
              eq_refl).
Defined.

(** The third of four endpoints has failed: the closed channel is taken
    and the next cycle stops all four and starts its own two. *)
Lemma start_failure_aborts_cycle_witness :
  let r := run true "none"
    {| pc := events; plugins := [gpu_a; no_gpu; gpu_down; gpu_b];
       started := 1; pluginStartError := true;
       deferred := deferred (at_label restart [] 0 false) |}
    [AtEvents RecvPluginStartError; AtRestart None [gpu_a; gpu_b]] in
  pc r.1 = events ∧ plugins r.1 = [gpu_a; gpu_b]
  ∧ stop_calls r.2 = [gpu_a; no_gpu; gpu_down; gpu_b]
  ∧ start_calls r.2 = [gpu_a; gpu_b].
Proof.
  destruct (start_failure_aborts_cycle true "none"
              (at_label restart [] 0 false) [gpu_a; no_gpu] gpu_down [gpu_b]
              eq_refl eq_refl eq_refl eq_refl ltac:(discriminate))
    as (tr & _ & _ & _ & _ & _ & H).
  exact (H [gpu_a; gpu_b] eq_refl).
Defined.


(** NVML is not found: parked without the flag, returned with it. *)
Lemma nvml_init_failure_witness :
  pc (start false "none"
        (AtEntry library_not_found None :: drop 1 one_cycle)).1 = blocked
  ∧ pc (start true "none"
        (AtEntry library_not_found None :: drop 1 one_cycle)).1 =
    returned (Some (Errorf "failed to initialize NVML: %v"
                      (VReturn library_not_found))).
Proof.
  split.
  - destruct (nvml_init_failure false "none" library_not_found None
                (drop 1 one_cycle) ltac:(discriminate)) as [_ H].
    destruct (H eq_refl) as [Hpc _]. exact Hpc.
  - destruct (nvml_init_failure true "none" library_not_found None
                (drop 1 one_cycle) ltac:(discriminate)) as [H _].
    destruct (H eq_refl) as [Hpc _]. exact Hpc.
Defined.

(** SIGTERM after one cycle over three endpoints. *)
Lemma fatal_signal_drains_witness :
  ∃ st' tr,
    step true "none" (start true "none" one_cycle).1
         (AtEvents (RecvSignal syscall.SIGTERM)) = Some (st', tr)
    ∧ pc st' = returned None ∧ Run None = ExitZero
    ∧ stop_calls tr = [gpu_a; no_gpu; gpu_b]
    ∧ live_after ((start true "none" one_cycle).2 ++ tr) = ∅
    ∧ ∀ ins', run true "none" st' ins' = (st', []).
Proof.
  exact (fatal_signal_drains true "none" one_cycle syscall.SIGTERM
           eq_refl ltac:(discriminate)).
Defined.

(** SIGHUP and the socket's Create event, each followed by a cycle. *)
Lemma reload_equals_agent_restart_witness :
  drop 1 (run true "none" (at_label events [gpu_a] 1 false)
            [AtEvents (RecvSignal syscall.SIGHUP); AtRestart None [gpu_b]]).2 =
  drop 1 (run true "none" (at_label events [gpu_a] 1 false)
            [AtEvents (RecvEvent
               {| fsnotify.Name := pluginapi.KubeletSocket;
                  fsnotify.Op := fsnotify.Create |});
             AtRestart None [gpu_b]]).2.
Proof.
  destruct (reload_equals_agent_restart true "none"
              (at_label events [gpu_a] 1 false) [AtRestart None [gpu_b]]
              eq_refl) as (_ & _ & _ & H & _).
  exact H.
Defined.

(** Another socket appears in the directory, then the watcher errs. *)
Lemma other_paths_never_restart_witness :
  step true "none" (at_label events [gpu_a] 1 false)
       (AtEvents (RecvEvent other_socket)) =
    Some (at_label events [gpu_a] 1 false, [])
  ∧ (run true "none" (at_label events [gpu_a] 1 false)
       [AtEvents (RecvEvent other_socket);
        AtEvents (RecvError "too many open files")]).1 =
    at_label events [gpu_a] 1 false.
Proof.
  destruct (other_paths_never_restart true "none"
              (at_label events [gpu_a] 1 false) eq_refl) as (H1 & _ & H3).
  split.
  - apply H1. discriminate.
  - apply (H3 [AtEvents (RecvEvent other_socket);
               AtEvents (RecvError "too many open files")] eq_refl).
Defined.

(** Device counts 2, 0 and 1. *)
Lemma empty_endpoints_skipped_witness :
  let r := restart_block "none" (at_label restart [] 0 false) None
             [gpu_a; no_gpu; gpu_b] in
  (start_calls r.2 = [gpu_a; gpu_b] ∧ started r.1 = 2%nat)
  ∧ Devices gpu_b ≠ [].
Proof.
  destruct (empty_endpoints_skipped "none" (at_label restart [] 0 false))
    as [H1 H2].
  split.
  - exact (H2 gpu_a no_gpu gpu_b eq_refl eq_refl eq_refl eq_refl eq_refl).
  - destruct (H1 [gpu_a; no_gpu; gpu_b]) as [H _]. apply H.
    apply list_elem_of_further, list_elem_of_here.
Defined.

(** An unknown strategy name in a later cycle. *)
Lemma resolver_failure_is_fatal_witness :
  ∃ st',
    step true "mig" (at_label restart [gpu_a] 1 false)
         (AtRestart (Some "unknown strategy: mig") [gpu_b]) =
      Some (st', map PluginStop [gpu_a] ++
                 [Info "Retreiving plugins."; NewMigStrategy "mig"] ++
                 deferred (at_label restart [gpu_a] 1 false))
    ∧ pc st' = returned (Some (Errorf "error creating MIG strategy: %v"
                                 (VError "unknown strategy: mig")))
    ∧ Run (Some (Errorf "error creating MIG strategy: %v"
                   (VError "unknown strategy: mig"))) =
      Fatal (Errorf "error creating MIG strategy: %v"
               (VError "unknown strategy: mig"))
    ∧ nonzero (Run (Some (Errorf "error creating MIG strategy: %v"
                            (VError "unknown strategy: mig")))) = true
    ∧ ∀ ins, run true "mig" st' ins = (st', []).
Proof.
  exact (resolver_failure_is_fatal true "mig" (at_label restart [gpu_a] 1 false)
           "unknown strategy: mig" [gpu_b] eq_refl).
Defined.

(** Create|Chmod on the kubelet socket. *)
Lemma create_bit_inclusion_witness :
  step true "none" (at_label events [gpu_a] 1 false)
    (AtEvents (RecvEvent
       {| fsnotify.Name := pluginapi.KubeletSocket;
          fsnotify.Op := Z.lor fsnotify.Create fsnotify.Chmod |})) =
  Some (at_label restart [gpu_a] 1 false,
        [Infof "inotify: %s created, restarting."
               [VString pluginapi.KubeletSocket]]).
Proof.
  destruct (create_bit_inclusion true "none" (at_label events [gpu_a] 1 false)
              (Z.lor fsnotify.Create fsnotify.Chmod) eq_refl) as (H & _).
  exact (proj1 (H eq_refl)).
Defined.

(** ** Beyond the claims: setup and teardown *)

Lemma infra_calls_app t1 t2 :
  infra_calls (t1 ++ t2) = infra_calls t1 ++ infra_calls t2.
Proof. apply List.filter_app. Qed.

Lemma infra_calls_stop_pass ps : infra_calls (map PluginStop ps) = [].
Proof. induction ps as [|p ps IH]; [done | exact IH]. Qed.

Lemma infra_calls_start_plugins ps : ∀ n, infra_calls (start_plugins ps n).2 = [].
Proof.
  induction ps as [|p ps IH]; intros n; simpl; [done|].
  destruct (length (Devices p) =? 0)%nat; [apply IH|].
  destruct (Start p); [done|]. specialize (IH (S n)).
  by destruct (start_plugins ps (S n)) as [[n' f] tr].
Qed.

Lemma infra_calls_restart_block mig st got :
  infra_calls (restart_block mig st None got).2 = [].
Proof.
  rewrite restart_block_unfold.
  pose proof (infra_calls_start_plugins got 0) as H.
  destruct (start_plugins got 0) as [[n failed] tr']. simpl in H |- *.
  rewrite !infra_calls_app, infra_calls_stop_pass. simpl.
  rewrite infra_calls_app, H.
  by destruct failed; [|destruct (n =? 0)%nat].
Qed.

Lemma set_up_step fail mig st tr i st' tr' :
  set_up st tr → step fail mig st i = Some (st', tr') → set_up st' (tr ++ tr').
Proof.
  unfold set_up, step. intros HI Hs.
  destruct (pc st) eqn:Hpc; try done; destruct HI as [Htr Hd];
    destruct i as [| serr got | c]; try discriminate.
  - injection Hs as Hs. destruct serr as [e|].
    + unfold restart_block, ret in Hs. injection Hs as <- <-. simpl.
      rewrite !infra_calls_app, infra_calls_stop_pass, Htr, Hd. done.
    + pose proof (infra_calls_restart_block mig st got) as Hi.
      destruct (restart_block_state mig st got) as (Hpc' & _ & _ & _ & Hd').
      rewrite Hs in Hi, Hpc', Hd'. simpl in *.
      rewrite Hpc', infra_calls_app, Hi, app_nil_r, Hd'. done.
  - unfold events_block in Hs. destruct c as [|event|err|s].
    + destruct (pluginStartError st); [|discriminate].
      injection Hs as <- <-. simpl. by rewrite app_nil_r.
    + destruct (_ && _); injection Hs as <- <-; simpl;
        rewrite ?Hpc, ?infra_calls_app, ?app_nil_r; simpl;
        by rewrite ?app_nil_r.
    + injection Hs as <- <-. rewrite Hpc, infra_calls_app. simpl.
      by rewrite app_nil_r.
    + destruct (s =? syscall.SIGHUP); injection Hs as <- <-; simpl.
      * rewrite infra_calls_app. simpl. by rewrite app_nil_r.
      * rewrite infra_calls_app, Htr.
        change (infra_calls (Infof "Received signal %v, shutting down."
                               [VSignal s] :: ?t))
          with (infra_calls t).
        by rewrite infra_calls_app, infra_calls_stop_pass, Hd.
Qed.

(** X1.  The setup and teardown calls of a run are fixed by how far it
    got: an [Init()] failure leaves only the pprof goroutine and the
    [Init()] call, with no [Shutdown()]; a watcher that cannot be created
    is followed by [Shutdown()] alone; otherwise everything is set up
    once, in the order of the source, and torn down once, in reverse,
    exactly when [start()] has returned. *)
Theorem setup_once_teardown_in_reverse (fail : bool) (mig : string)
    (nvret : Z) (werr : option string) (ins : list Input) :
  let r := start fail mig (AtEntry nvret werr :: ins) in
  infra_calls r.2 =
    if negb (nvret =? nvml.SUCCESS) then [GoPprofServer; NvmlInit]
    else match werr with
         | Some _ => [GoPprofServer; NvmlInit;
                      NewFSWatcher pluginapi.DevicePluginPath; NvmlShutdown]
         | None => setup_calls ++
                   (if has_returned r.1 then teardown_calls else [])
         end.
Proof.
  intros r. subst r. unfold start. cbn [run]. unfold step. simpl.
  unfold entry_block.
  destruct (negb (nvret =? nvml.SUCCESS)); [|destruct werr as [e|]].
  - destruct fail; unfold ret, goto; simpl; by rewrite halted_run.
  - unfold ret. simpl. by rewrite halted_run.
  - set (st1 := goto restart _). set (tr1 := (_ ++ _) ++ _).
    assert (H1 : set_up st1 tr1) by done.
    pose proof (run_invariant fail mig set_up (set_up_step fail mig)
                  ins st1 tr1 H1) as H.
    destruct (run fail mig st1 ins) as [st' tr']. simpl in *.
    unfold set_up, has_returned in *.
    destruct (pc st'); try done; try (destruct H as [H _]); exact H.
Qed.

(** ** Beyond the claims: how [start()] returns *)

Lemma step_cause fail mig st i st' tr r :
  step fail mig st i = Some (st', tr) → pc st' = returned r → cause fail i r.
Proof.
  unfold step. intros Hs Hr.
  destruct (pc st) eqn:Hpc; destruct i as [nvret werr | serr got | c];
    try discriminate.
  - injection Hs as Hs. unfold entry_block in Hs. simpl.
    destruct (nvret =? nvml.SUCCESS) eqn:Hn; simpl in Hs.
    + apply Z.eqb_eq in Hn. right. split; [done|].
      destruct werr as [e|]; injection Hs as <- <-; [|discriminate].
      exists e. split; [done|]. simpl in Hr. by injection Hr as <-.
    + apply Z.eqb_neq in Hn. left. split; [done|].
      destruct fail; injection Hs as <- <-; [|discriminate].
      split; [done|]. simpl in Hr. by injection Hr as <-.
  - injection Hs as Hs. destruct serr as [e|]; simpl.
    + unfold restart_block, ret in Hs. injection Hs as <- <-.
      simpl in Hr. by injection Hr as <-.
    + destruct (restart_block_state mig st got) as (Hpc' & _).
      rewrite Hs in Hpc'. simpl in Hpc'. congruence.
  - unfold events_block in Hs. destruct c as [|event|err|s]; simpl.
    + destruct (pluginStartError st); [|discriminate].
      injection Hs as <- <-. discriminate.
    + destruct (_ && _); injection Hs as <- <-; [discriminate | congruence].
    + injection Hs as <- <-. congruence.
    + destruct (s =? syscall.SIGHUP) eqn:Hsig; injection Hs as <- <-;
        [discriminate|].
      apply Z.eqb_neq in Hsig. split; [done|]. simpl in Hr.
      by injection Hr as <-.
Qed.

Lemma run_cause fail mig r ins : ∀ st,
  halted st = false → pc (run fail mig st ins).1 = returned r →
  ∃ i, i ∈ ins ∧ cause fail i r.
Proof.
  induction ins as [|i ins IH]; intros st Hh Hr; simpl in Hr.
  - unfold halted in Hh. rewrite Hr in Hh. discriminate.
  - destruct (step fail mig st i) as [[st' tr]|] eqn:Hs.
    + destruct (halted st') eqn:Hh'.
      * rewrite (halted_run fail mig st' ins Hh') in Hr. simpl in Hr.
        exists i. split; [set_solver | by eapply step_cause].
      * destruct (run fail mig st' ins) as [st'' tr'] eqn:E. simpl in Hr.
        destruct (IH st' Hh') as (j & Hj & Hc); [by rewrite E|].
        exists j. split; [set_solver | done].
    + simpl in Hr. unfold halted in Hh. rewrite Hr in Hh. discriminate.
Qed.

(** X2.  [start()] returns only at one of its four [return]s: whenever a
    run has returned [r], one of the answers it was given is an [Init()]
    failure with the flag set, a watcher that could not be created, a
    strategy that could not be resolved, or a signal other than SIGHUP;
    and it has returned [nil], so that the command exits with status
    zero, only if such a signal was among them. *)
Theorem return_causes (fail : bool) (mig : string) (ins : list Input)
    (r : option error) :
  pc (start fail mig ins).1 = returned r →
  (∃ i, i ∈ ins ∧ cause fail i r)
  ∧ (Run r = ExitZero →
     ∃ s, s ≠ syscall.SIGHUP ∧ AtEvents (RecvSignal s) ∈ ins).
Proof.
  intros Hr. destruct (run_cause fail mig r ins initial eq_refl Hr)
    as (i & Hi & Hc).
  split; [by exists i|]. intros Hz. destruct r as [e|]; [discriminate|].
  destruct i as [nvret werr | [e|] got | [|event|err|s]]; simpl in Hc;
    try done.
  - destruct Hc as [(_ & _ & ?)|(_ & e & _ & ?)]; discriminate.
  - destruct Hc as [Hs _]. by exists s.
Qed.

(** An NVML that starts, a cycle, a filesystem error, then SIGINT. *)
Lemma return_causes_witness :
  ∃ s, s ≠ syscall.SIGHUP ∧
    AtEvents (RecvSignal s) ∈
      one_cycle ++ [AtEvents (RecvError "too many open files");
                    AtEvents (RecvSignal syscall.SIGINT)].
Proof.
  destruct (return_causes true "none"
              (one_cycle ++ [AtEvents (RecvError "too many open files");
                             AtEvents (RecvSignal syscall.SIGINT)])
              None eq_refl) as [_ H].
  exact (H eq_refl).
Defined.

(** X3.  When the filesystem watcher cannot be created, [start()]
    returns the wrapped error whatever the fail-on-init-error flag says,
    and the only call after the failed constructor is the deferred NVML
    [Shutdown()] with its log line: no signal watcher, cache, register or
    plugin exists, and nothing is taken after the return. *)
Theorem fs_watcher_failure (fail : bool) (mig : string) (e : string)
    (ins : list Input) :
  let err := Errorf "failed to create FS watcher: %v" (VError e) in
  start fail mig (AtEntry nvml.SUCCESS (Some e) :: ins) =
    ({| pc := returned (Some err); plugins := []; started := 0;
        pluginStartError := false; deferred := [] |},
     [GoPprofServer; Info "Loading NVML"; NvmlInit;
      Info "Starting FS watcher."; NewFSWatcher pluginapi.DevicePluginPath;
      NvmlShutdown; Info "Shutdown of NVML returned:"])
  ∧ Run (Some err) = Fatal err.
Proof.
  intros err. split; [|done]. unfold start. cbn [run]. unfold step. simpl.
  unfold entry_block, ret. simpl. by rewrite halted_run.
Qed.

(** ** Beyond the claims: the outcome of a cycle *)

Lemma passes_split pre p post :
  has_devices p = true → Start p ≠ None →
  forallb passes (pre ++ p :: post) = false.
Proof.
  intros Hd Hs. rewrite forallb_app. simpl. unfold passes at 2.
  rewrite Hd. simpl. rewrite bool_decide_eq_false_2 by done. simpl.
  apply andb_false_r.
Qed.

(** X4.  What a cycle whose strategy resolves comes to.  The failure
    channel is closed exactly when some endpoint that owns a device fails
    to start, and then once; [Start()] is called on the device-owning
    endpoints in the order of the set, from the first up to the first
    failure; the started-count and the failure together account for every
    [Start()] call; and when all start, all device-owning endpoints are
    started and counted. *)
Theorem cycle_outcome (mig : string) (st : State)
    (got : list NvidiaDevicePlugin) :
  let r := restart_block mig st None got in
  pluginStartError r.1 = negb (forallb passes got)
  ∧ failure_triggers r.2 = (if forallb passes got then 0 else 1)%nat
  ∧ start_calls r.2 `prefix_of` List.filter has_devices got
  ∧ (started r.1 + failure_triggers r.2 = length (start_calls r.2))%nat
  ∧ (forallb passes got = true →
     start_calls r.2 = List.filter has_devices got).
Proof.
  intros r. subst r. rewrite restart_block_unfold.
  destruct (first_failure got) as [Hall|(pre & p & post & -> & Hpre & Hp & Hf)].
  - rewrite (start_plugins_all got 0 Hall), Hall. simpl.
    assert (Hc : start_calls
      (map PluginStop (plugins st) ++
       Info "Retreiving plugins." :: NewMigStrategy mig :: GetPlugins got ::
       MakePluginStartError :: map PluginStart (List.filter has_devices got) ++
       (if (length (List.filter has_devices got) =? 0)%nat
        then [Info msg_no_devices] else [])) = List.filter has_devices got).
    { by destruct (length (List.filter has_devices got) =? 0)%nat; trace. }
    rewrite Hc. split; [done|]. split.
    { by destruct (length (List.filter has_devices got) =? 0)%nat; trace. }
    split; [done|]. split; [|done].
    by destruct (length (List.filter has_devices got) =? 0)%nat; trace; lia.
  - rewrite (start_plugins_abort pre p post 0 Hpre Hp Hf).
    rewrite (passes_split pre p post Hp Hf). simpl.
    split; [done|]. split; [by trace|]. split; [|split; [|done]].
    + trace. rewrite List.filter_app. simpl. rewrite Hp.
      exists (List.filter has_devices post). by rewrite <- app_assoc.
    + trace. rewrite length_app. simpl. lia.
Qed.

(** Device counts 2, 0 and 1, every [Start()] succeeding. *)
Lemma cycle_outcome_witness :
  start_calls (restart_block "none" (at_label restart [] 0 false) None
                 [gpu_a; no_gpu; gpu_b]).2 = [gpu_a; gpu_b].
Proof.
  destruct (cycle_outcome "none" (at_label restart [] 0 false)
              [gpu_a; no_gpu; gpu_b]) as (_ & _ & _ & _ & H).
  exact (H eq_refl).
Defined.

(** ** Beyond the claims: every endpoint built is stopped *)

(** X5.  Along every run the [Stop()] calls made so far, followed by the
    endpoints [start()] still holds at its two labels, are the endpoints
    [GetPlugins] has returned, in order: no endpoint is stopped twice or
    before it is replaced, and once [start()] has returned before or
    after serving every endpoint ever built has been stopped once,
    started or not. *)
Theorem every_endpoint_stopped_once (fail : bool) (mig : string)
    (ins : list Input) :
  let r := start fail mig ins in
  stop_calls r.2 ++ owed r.1 = built r.2
  ∧ (has_returned r.1 = true → stop_calls r.2 = built r.2).
Proof.
  intros r. subst r. unfold start.
  assert (H0 : balanced initial []) by done.
  destruct (run_invariant fail mig balanced (balanced_step fail mig)
              ins initial [] H0) as (_ & _ & H).
  simpl in H. split; [exact H|]. intros Hr. rewrite <- H.
  unfold has_returned in Hr. unfold owed.
  destruct (pc (run fail mig initial ins).1); try discriminate.
  by rewrite app_nil_r.
Qed.

(** Two cycles and SIGQUIT: three endpoints built, three stopped. *)
Lemma every_endpoint_stopped_once_witness :
  stop_calls (start true "none"
                (two_cycles ++ [AtEvents (RecvSignal syscall.SIGQUIT)])).2 =
  [gpu_a; no_gpu; gpu_b].
Proof.
  destruct (every_endpoint_stopped_once true "none"
              (two_cycles ++ [AtEvents (RecvSignal syscall.SIGQUIT)]))
    as [_ H].
  exact (H eq_refl).
Defined.

(** ** Beyond the claims: who is live while serving *)

Lemma live_from_starts live ps :
  live_from live (map PluginStart ps) = live ∪ addrs ps.
Proof.
  revert live. induction ps as [|p ps IH]; intros live.
  - unfold addrs. simpl. set_solver.
  - rewrite map_cons, live_from_cons, IH, addrs_cons. simpl. set_solver.
Qed.

Lemma restart_block_failed mig st got :
  pluginStartError (restart_block mig st None got).1 = negb (forallb passes got)
  ∧ (forallb passes got = true →
     started (restart_block mig st None got).1 =
     length (List.filter has_devices got)).
Proof.
  destruct (restart_block_state mig st got) as (_ & _ & -> & -> & _).
  destruct (first_failure got) as [Hall|(pre & p & post & -> & Hpre & Hp & Hf)].
  - by rewrite (start_plugins_all got 0 Hall), Hall.
  - rewrite (start_plugins_abort pre p post 0 Hpre Hp Hf).
    by rewrite (passes_split pre p post Hp Hf).
Qed.

Lemma restart_block_live mig st got live :
  live ⊆ addrs (plugins st) → forallb passes got = true →
  live_from live (restart_block mig st None got).2 =
  addrs (List.filter has_devices got).
Proof.
  intros Hl Hall. rewrite restart_block_unfold.
  rewrite (start_plugins_all got 0 Hall). simpl.
  rewrite live_from_app, (stop_pass_clears _ _ Hl). simpl.
  change (live_from ∅
    ([Info "Retreiving plugins."; NewMigStrategy mig; GetPlugins got;
      MakePluginStartError] ++
     map PluginStart (List.filter has_devices got) ++
     (if (length (List.filter has_devices got) =? 0)%nat
      then [Info msg_no_devices] else [])) =
    addrs (List.filter has_devices got)).
  rewrite !live_from_app, live_from_starts. simpl.
  destruct (length (List.filter has_devices got) =? 0)%nat; simpl; set_solver.
Qed.

Lemma serving_step fail mig st tr i st' tr' :
  serving st tr → step fail mig st i = Some (st', tr') →
  serving st' (tr ++ tr').
Proof.
  intros (Hq & Hl & Hs) Hstep.
  destruct (step_stretch _ _ _ _ _ _ _ Hstep Hq Hl) as [(_ & _ & Hl') Hq'].
  unfold serving, live_after in *. rewrite live_from_app.
  split; [done|]. split; [done|]. intros Hpc' Hf'.
  unfold step in Hstep.
  destruct (pc st) eqn:Hpc; destruct i as [nvret werr | serr got | c];
    try discriminate.
  - injection Hstep as Hstep. exfalso. unfold entry_block in Hstep.
    by destruct (negb (nvret =? nvml.SUCCESS)); [destruct fail | destruct werr];
      injection Hstep as <- _.
  - injection Hstep as Hstep. destruct serr as [e|].
    + unfold restart_block, ret in Hstep. by injection Hstep as <- _.
    + destruct (restart_block_failed mig st got) as [Hfail Hn].
      destruct (restart_block_state mig st got) as (_ & Hp & _).
      pose proof (restart_block_live mig st got _ Hl) as Hlive.
      rewrite Hstep in Hfail, Hn, Hp, Hlive. simpl in *.
      rewrite Hf' in Hfail. symmetry in Hfail.
      apply negb_false_iff in Hfail. rewrite Hp. auto.
  - unfold events_block in Hstep. destruct c as [|event|err|s].
    + destruct (pluginStartError st); [|discriminate].
      by injection Hstep as <- <-.
    + destruct (_ && _); injection Hstep as <- <-; [done|]. by apply Hs.
    + injection Hstep as <- <-. by apply Hs.
    + by destruct (s =? syscall.SIGHUP); injection Hstep as <- <-.
Qed.

(** X6.  Whenever a run of [start()] is at [events:] and the failure
    channel of the cycle is open, the endpoints that have been started and
    not stopped since are exactly those of the current PluginSet that own a
    device, and the started-count is their number. *)
Theorem serving_set_is_live (fail : bool) (mig : string) (ins : list Input) :
  let r := start fail mig ins in
  pc r.1 = events → pluginStartError r.1 = false →
  live_after r.2 = addrs (List.filter has_devices (plugins r.1))
  ∧ started r.1 = length (List.filter has_devices (plugins r.1)).
Proof.
  intros r. subst r. unfold start.
  assert (H0 : serving initial []).
  { split; [done|]. split; [set_solver | done]. }
  destruct (run_invariant fail mig serving (serving_step fail mig)
              ins initial [] H0) as (_ & _ & H).
  exact H.
Qed.

(** Two cycles and a stray filesystem event: the endpoint of the second
    set is the one that is live. *)
Lemma serving_set_is_live_witness :
  live_after (start true "none"
                (two_cycles ++ [AtEvents (RecvEvent other_socket)])).2 =
    addrs [gpu_b]
  ∧ started (start true "none"
               (two_cycles ++ [AtEvents (RecvEvent other_socket)])).1 = 1%nat.
Proof.
  exact (serving_set_is_live true "none"
           (two_cycles ++ [AtEvents (RecvEvent other_socket)])
           eq_refl eq_refl).
Defined.

(** ** Beyond the claims: retrying *)

Lemma resolver_calls_app t1 t2 :
  resolver_calls (t1 ++ t2) = (resolver_calls t1 + resolver_calls t2)%nat.
Proof.
  induction t1 as [|a t1 IH]; [done|]. destruct a; simpl; by rewrite ?IH.
Qed.

Lemma resolver_calls_stop_pass ps : resolver_calls (map PluginStop ps) = 0%nat.
Proof. induction ps as [|p ps IH]; [done | exact IH]. Qed.

Lemma resolver_calls_start_plugins ps : ∀ n,
  resolver_calls (start_plugins ps n).2 = 0%nat.
Proof.
  induction ps as [|p ps IH]; intros n; simpl; [done|].
  destruct (length (Devices p) =? 0)%nat; [apply IH|].
  destruct (Start p); [done|]. specialize (IH (S n)).
  by destruct (start_plugins ps (S n)) as [[n' f] tr].
Qed.

Lemma failure_triggers_start_plugins ps : ∀ n,
  failure_triggers (start_plugins ps n).2 =
  (if (start_plugins ps n).1.2 then 1 else 0)%nat.
Proof.
  induction ps as [|p ps IH]; intros n; simpl; [done|].
  destruct (length (Devices p) =? 0)%nat; [apply IH|].
  destruct (Start p); [done|]. specialize (IH (S n)).
  by destruct (start_plugins ps (S n)) as [[n' f] tr].
Qed.

(** One cycle that resolves: one resolution, one set built, and a
    failure trigger exactly when the channel is left closed. *)
Lemma restart_block_counts mig st got :
  resolver_calls (restart_block mig st None got).2 = 1%nat
  ∧ built (restart_block mig st None got).2 = got
  ∧ failure_triggers (restart_block mig st None got).2 =
    (if pluginStartError (restart_block mig st None got).1 then 1 else 0)%nat.
Proof.
  rewrite restart_block_unfold.
  pose proof (resolver_calls_start_plugins got 0) as H1.
  pose proof (built_start_plugins got 0) as H2.
  pose proof (failure_triggers_start_plugins got 0) as H3.
  destruct (start_plugins got 0) as [[n failed] t]. simpl in *.
  rewrite resolver_calls_app, resolver_calls_stop_pass,
    built_app, built_stop_pass, failure_triggers_app,
    failure_triggers_stop_pass. simpl.
  rewrite resolver_calls_app, built_app, failure_triggers_app, H1, H2, H3.
  by destruct failed; [|destruct (n =? 0)%nat]; simpl; rewrite ?app_nil_r.
Qed.

(** X7.  A failed [Start()] is retried without bound or delay: from
    [restart:], [n] cycles over a set in which some device-owning endpoint
    fails to start, each left through the closed failure channel, bring
    [start()] back to [restart:] after [n] resolutions, [n] sets built and
    [n] failure triggers, without it returning. *)
Theorem retried_without_bound (fail : bool) (mig : string) (n : nat)
    (got : list NvidiaDevicePlugin) : ∀ st : State,
  pc st = restart → forallb passes got = false →
  let r := run fail mig st (retries n got) in
  pc r.1 = restart
  ∧ resolver_calls r.2 = n
  ∧ failure_triggers r.2 = n
  ∧ built r.2 = concat (replicate n got).
Proof.
  induction n as [|n IH]; intros st Hpc Hfail r; subst r; [done|].
  cbn [retries run]. unfold step. rewrite Hpc.
  destruct (restart_block_failed mig st got) as [Hf _].
  destruct (restart_block_state mig st got) as (Hpc1 & _).
  destruct (restart_block_counts mig st got) as (H1 & H2 & H3).
  destruct (restart_block mig st None got) as [st1 tr1]. simpl in *.
  rewrite Hfail in Hf. simpl in Hf. rewrite Hf in H3.
  rewrite Hpc1. simpl. rewrite Hf.
  destruct (IH (goto restart st1) eq_refl Hfail) as (K1 & K2 & K3 & K4).
  destruct (run fail mig (goto restart st1) (retries n got)) as [st2 tr2].
  simpl in *.
  rewrite resolver_calls_app, failure_triggers_app, built_app, H1, H2, H3,
    K2, K3, K4.
  done.
Qed.

(** Three rounds with an endpoint that cannot reach the kubelet. *)
Lemma retried_without_bound_witness :
  resolver_calls (run true "none" (at_label restart [] 0 false)
                    (retries 3 [gpu_a; gpu_down])).2 = 3%nat.
Proof.
  destruct (retried_without_bound true "none" 3 [gpu_a; gpu_down]
              (at_label restart [] 0 false) eq_refl eq_refl)
    as (_ & H & _).
  exact H.
Defined.

(** ** Beyond the claims: the resolver is asked with everything set up *)

Lemma guarded_app t1 : ∀ seen t2,
  guarded seen (t1 ++ t2) ↔
  guarded seen t1 ∧ guarded (seen ++ infra_calls t1) t2.
Proof.
  induction t1 as [|a t1 IH]; intros seen t2.
  - simpl. rewrite app_nil_r. tauto.
  - cbn [app guarded]. rewrite IH. unfold infra_calls. cbn [List.filter].
    destruct (infra a); [rewrite <- app_assoc|]; simpl; tauto.
Qed.

Lemma guarded_no_asks tr : ∀ seen,
  forallb (λ a, negb (asks a)) tr = true → guarded seen tr.
Proof.
  induction tr as [|a tr IH]; intros seen; [done|]. simpl.
  intros [Ha Ht]%andb_prop. split; [by destruct a | by apply IH].
Qed.

Lemma guarded_infra_free tr :
  infra_calls tr = [] → guarded setup_calls tr.
Proof.
  induction tr as [|a tr IH]; [done|]. unfold infra_calls. simpl.
  destruct (infra a) eqn:Ha; [discriminate|]. intros Ht.
  split; [by destruct a | by apply IH].
Qed.

Lemma no_asks_stop_pass ps :
  forallb (λ a, negb (asks a)) (map PluginStop ps) = true.
Proof. induction ps as [|p ps IH]; [done | exact IH]. Qed.

(** Once set up, each step asks the resolver before any teardown. *)
Lemma set_up_step_guarded fail mig st tr i st' tr' :
  set_up st tr → step fail mig st i = Some (st', tr') →
  guarded (infra_calls tr) tr'.
Proof.
  unfold set_up, step. intros HI Hs.
  destruct (pc st) eqn:Hpc; try done; destruct HI as [-> Hd];
    destruct i as [| serr got | c]; try discriminate.
  - injection Hs as Hs. destruct serr as [e|].
    + unfold restart_block, ret in Hs. injection Hs as <- <-.
      apply guarded_app. split.
      * apply guarded_infra_free.
        by rewrite infra_calls_app, infra_calls_stop_pass.
      * apply guarded_no_asks. by rewrite Hd.
    + apply guarded_infra_free.
      pose proof (infra_calls_restart_block mig st got) as Hi.
      by rewrite Hs in Hi.
  - unfold events_block in Hs. destruct c as [|event|err|s].
    + destruct (pluginStartError st); [|discriminate]. by injection Hs as <- <-.
    + by destruct (_ && _); injection Hs as <- <-.
    + by injection Hs as <- <-.
    + destruct (s =? syscall.SIGHUP); injection Hs as <- <-; [done|].
      apply guarded_no_asks. simpl.
      by rewrite forallb_app, no_asks_stop_pass, Hd.
Qed.

Lemma start_guarded fail mig ins : guarded [] (start fail mig ins).2.
Proof.
  unfold start. destruct ins as [|i ins]; [done|]. cbn [run]. unfold step.
  simpl. destruct i as [nvret werr| |]; try done.
  unfold entry_block.
  destruct (negb (nvret =? nvml.SUCCESS)); [|destruct werr as [e|]].
  - destruct fail; unfold ret, goto; simpl; by rewrite halted_run.
  - unfold ret. simpl. by rewrite halted_run.
  - set (st1 := goto restart _). set (tr1 := (_ ++ _) ++ _).
    assert (H1 : guarded [] tr1 ∧ set_up st1 tr1) by (by vm_compute).
    pose proof (run_invariant fail mig (λ st tr, guarded [] tr ∧ set_up st tr))
      as Hinv.
    destruct (Hinv ltac:(
        intros st tr i st' tr' [Hg Hu] Hs; split;
        [apply guarded_app; split; [done|];
         by eapply (set_up_step_guarded fail mig st tr i st' tr')
        | by eapply set_up_step]) ins st1 tr1 H1) as [Hg _].
    by destruct (run fail mig st1 ins) as [st' tr'].
Qed.

(** X8.  Whenever [start()] resolves the strategy or asks it for the
    plugins, the setup and teardown calls made until then are exactly the
    setup calls: NVML is initialised, both watchers exist, the cache and
    the register have been started, and none of them has been stopped. *)
Theorem resolver_asked_when_set_up (fail : bool) (mig : string)
    (ins : list Input) (t1 : list Action) (a : Action) (t2 : list Action) :
  (start fail mig ins).2 = t1 ++ a :: t2 → asks a = true →
  infra_calls t1 = setup_calls.
Proof.
  intros Htr Ha. pose proof (start_guarded fail mig ins) as Hg.
  rewrite Htr in Hg. apply guarded_app in Hg as [_ [Hseen _]].
  by destruct a.
Qed.

(** The second resolution of a run with two cycles. *)
Lemma resolver_asked_when_set_up_witness :
  infra_calls (take 21 (start true "none" two_cycles).2) = setup_calls.
Proof.
  exact (resolver_asked_when_set_up true "none" two_cycles
           (take 21 (start true "none" two_cycles).2)
           (NewMigStrategy "none")
           (drop 22 (start true "none" two_cycles).2) eq_refl eq_refl).
Defined.

(** ** Beyond the claims: the waiting message *)

Lemma filter_nil_length (ps : list NvidiaDevicePlugin) :
  (length ps =? 0)%nat = true ↔ ps = [].
Proof. destruct ps; simpl; split; intros H; done. Qed.

(** X9.  In a cycle whose strategy resolves, [No devices found. Waiting
    indefinitely.] is logged exactly when no endpoint of the set owns a
    device: with a device-owning endpoint in the set, either one starts
    and is counted or one fails and the check is jumped over. *)
Theorem waiting_log_iff_no_devices (mig : string) (st : State)
    (got : list NvidiaDevicePlugin) :
  logs msg_no_devices (restart_block mig st None got).2 = true ↔
  List.filter has_devices got = [].
Proof.
  rewrite logs_restart_block.
  destruct (first_failure got) as [Hall|(pre & p & post & -> & Hpre & Hp & Hf)].
  - rewrite (start_plugins_all got 0 Hall). simpl.
    apply filter_nil_length.
  - rewrite (start_plugins_abort pre p post 0 Hpre Hp Hf). simpl.
    rewrite List.filter_app. simpl. rewrite Hp. split; [done|].
    intros H. by apply app_eq_nil in H as [_ ?].
Qed.

(** A cycle that builds the empty set logs the waiting message. *)
Lemma waiting_log_iff_no_devices_witness :
  logs msg_no_devices
    (restart_block "none" (at_label restart [gpu_a] 1 false) None []).2 = true.
Proof.
  apply (waiting_log_iff_no_devices "none" (at_label restart [gpu_a] 1 false) []).
  reflexivity.
Defined.
